(** * The fact-acquisition pipeline of the fun-fact app

    A shallow embedding of the three versions of [App.js] kept in the
    repository:

    - [Part000]: the first version (exponential backoff with jitter, tuning
      constants [MAX_RETRIES], [BASE_DELAY_MS], [JITTER]);
    - [Part001]: the second version (plain doubling backoff, lowercase facts);
    - [AppJs]: the current [src/App.js], which adds the sliding-window rate
      limiter on user taps.

    JavaScript's effects are made explicit.  The network, [Math.random],
    [Date.now] and [sleep] live in a [World] that is threaded through every
    asynchronous function by a small state monad; the React refs and state
    cells of the component are the fields of the [App] record.

    Three idealisations.  Delays and random values are rationals, not
    doubles.  [toLowerCase] maps the ASCII letters only.  A turn of the
    component (a press, an initial load, some rounds of a refill, the
    resumption of a suspended refill) runs without being interleaved with
    another; a refill can be cut into turns at each of its [await]s, which
    is where JavaScript can interleave it. *)

From Stdlib Require Import ZArith QArith Qround Qminmax Lia Lqa.
From Stdlib Require Import List String Ascii.
From stdpp Require Import base decidable option list sets gmap strings.

Local Open Scope Z_scope.
Local Open Scope string_scope.

(** ** JavaScript values met by the pipeline *)

(** The value of [toText(d)], that is of [d?.text], for a parsed body [d]. *)
Inductive jsval : Type :=
| VUndefined
| VNull
| VBool (b : bool)
| VNum (z : Z)
| VStr (s : string)
| VObj.

(** The outcome of one [fetchJson] followed by [toText]: either the request
    rejects (transport failure, status that is not ok, body that is not
    JSON), or it resolves and [d?.text] has the given value. *)
Inductive reply : Type :=
| NetError
| Body (text : jsval).

(** JavaScript truthiness, as tested by [!t]. *)
Definition truthy (v : jsval) : bool :=
  match v with
  | VUndefined | VNull => false
  | VBool b => b
  | VNum z => negb (z =? 0)%Z
  | VStr s => negb (String.eqb s "")
  | VObj => true
  end.

(** [String.prototype.toLowerCase] on the ASCII letters.  Strings are byte
    strings; bytes outside [A-Z] are left as they are. *)
Definition lower_ascii (c : ascii) : ascii :=
  let n := nat_of_ascii c in
  if ((65 <=? n)%nat && (n <=? 90)%nat)%bool then ascii_of_nat (n + 32) else c.

Fixpoint toLowerCase (s : string) : string :=
  match s with
  | EmptyString => EmptyString
  | String c s' => String (lower_ascii c) (toLowerCase s')
  end.

(** A draw of [Math.random()]: a rational of the half-open unit interval. *)
Record rand01 : Type := Rand01 {
  rv : Q;
  rv_range : (Qle_bool 0 rv && negb (Qle_bool 1 rv))%bool = true
}.

(** ** The world outside the component *)

Record World : Type := mkWorld {
  net : nat -> reply;       (* outcome of the n-th request ever issued *)
  fetches : nat;            (* requests issued so far *)
  rnd : nat -> rand01;      (* the n-th value of Math.random() *)
  draws : nat;              (* random values drawn so far *)
  clock : nat -> Z;         (* the n-th reading of Date.now(), epoch ms *)
  reads : nat;              (* clock readings so far *)
  slept : list Q;           (* durations passed to sleep, oldest first *)
  warnings : nat            (* console.warn calls *)
}.

(** Asynchronous functions are state transformers over the world; [await]
    is sequencing. *)
Definition M (A : Type) : Type := World -> A * World.

Definition ret {A} (a : A) : M A := fun w => (a, w).

Definition bind {A B} (c : M A) (k : A -> M B) : M B :=
  fun w => let (a, w') := c w in k a w'.

Notation "x <~ c ;; k" := (bind c (fun x => k))
  (at level 63, c at next level, right associativity).
Notation "c ;;; k" := (bind c (fun _ => k))
  (at level 63, right associativity).

(** [toText(await fetchJson(url))]: the next outcome the network holds.
    The URL is the constant [API_URL] at every call and is left out. *)
Definition fetchJson_toText : M reply := fun w =>
  (net w (fetches w),
   mkWorld (net w) (S (fetches w)) (rnd w) (draws w) (clock w) (reads w)
           (slept w) (warnings w)).

(** [await sleep(ms)]: the wait is recorded, time itself is the clock's
    business. *)
Definition sleep (ms : Q) : M unit := fun w =>
  (tt,
   mkWorld (net w) (fetches w) (rnd w) (draws w) (clock w) (reads w)
           (slept w ++ [ms]) (warnings w)).

Definition Math_random : M rand01 := fun w =>
  (rnd w (draws w),
   mkWorld (net w) (fetches w) (rnd w) (S (draws w)) (clock w) (reads w)
           (slept w) (warnings w)).

Definition Date_now : M Z := fun w =>
  (clock w (reads w),
   mkWorld (net w) (fetches w) (rnd w) (draws w) (clock w) (S (reads w))
           (slept w) (warnings w)).

Definition console_warn : M unit := fun w =>
  (tt,
   mkWorld (net w) (fetches w) (rnd w) (draws w) (clock w) (reads w)
           (slept w) (S (warnings w))).

(** ** The component's cells

    [cacheRef], [seenRef] and [tapsRef] are the [useRef] objects, the other
    fields the [useState] cells.  The first two versions have no limiter
    cells; their functions carry those fields along untouched. *)

(** The numbers the limiter computes: integers and [Infinity]
    (what [Math.min()] of no argument returns). *)
Inductive num : Type :=
| Fin (z : Z)
| PosInf.

Record App : Type := mkApp {
  fact : string;
  busy : bool;
  cacheRef : list string;       (* queue of upcoming facts, oldest first *)
  seenRef : gset string;        (* texts that entered the queue this session *)
  tapsRef : list Z;             (* timestamps of the counted taps *)
  limitUntil : option num;      (* number | null *)
  remaining : num;
  showLimit : bool;
  refills : nat                 (* primeCache() calls fired and not awaited *)
}.

Definition set_fact (x : string) (a : App) : App :=
  mkApp x (busy a) (cacheRef a) (seenRef a) (tapsRef a) (limitUntil a)
        (remaining a) (showLimit a) (refills a).
Definition set_busy (x : bool) (a : App) : App :=
  mkApp (fact a) x (cacheRef a) (seenRef a) (tapsRef a) (limitUntil a)
        (remaining a) (showLimit a) (refills a).
Definition set_cacheRef (x : list string) (a : App) : App :=
  mkApp (fact a) (busy a) x (seenRef a) (tapsRef a) (limitUntil a)
        (remaining a) (showLimit a) (refills a).
Definition set_seenRef (x : gset string) (a : App) : App :=
  mkApp (fact a) (busy a) (cacheRef a) x (tapsRef a) (limitUntil a)
        (remaining a) (showLimit a) (refills a).
Definition set_tapsRef (x : list Z) (a : App) : App :=
  mkApp (fact a) (busy a) (cacheRef a) (seenRef a) x (limitUntil a)
        (remaining a) (showLimit a) (refills a).
Definition set_limitUntil (x : option num) (a : App) : App :=
  mkApp (fact a) (busy a) (cacheRef a) (seenRef a) (tapsRef a) x
        (remaining a) (showLimit a) (refills a).
Definition set_remaining (x : num) (a : App) : App :=
  mkApp (fact a) (busy a) (cacheRef a) (seenRef a) (tapsRef a) (limitUntil a)
        x (showLimit a) (refills a).
Definition set_showLimit (x : bool) (a : App) : App :=
  mkApp (fact a) (busy a) (cacheRef a) (seenRef a) (tapsRef a) (limitUntil a)
        (remaining a) x (refills a).
Definition set_refills (x : nat) (a : App) : App :=
  mkApp (fact a) (busy a) (cacheRef a) (seenRef a) (tapsRef a) (limitUntil a)
        (remaining a) (showLimit a) x.

(** How an [async] function that may throw ends: its promise resolves or
    rejects; either way the cells are as the function left them. *)
Inductive settled : Type :=
| Resolved (a : App)
| Rejected (a : App).

Definition cells (r : settled) : App :=
  match r with Resolved a | Rejected a => a end.

(** Whether a refill loop ran to its end or was left suspended at an
    [await]. *)
Inductive progress : Type := Finished | Suspended.

(** ** What the three versions share

    [primeCache] and [getNextFact] read the same in all three files up to
    the retry policy they call and to whether the fallback text is
    lowercased. *)

Section Component.

Variable fetchWithRetry : M (option string).
Variable target : nat.
Variable FALLBACK : list string.
Variable fallback_case : string -> string.

(** [!f] for [f] a string, [null] or [undefined]. *)
Definition falsy (f : option string) : bool :=
  match f with
  | None => true
  | Some t => String.eqb t ""
  end.

(** [if (!seenRef.current.has(f)) { cacheRef.current.push(f);
    seenRef.current.add(f); }] *)
Definition offer (f : string) (a : App) : App :=
  if decide (f ∈ seenRef a) then a
  else set_seenRef ({[ f ]} ∪ seenRef a) (set_cacheRef (cacheRef a ++ [f]) a).

(** The loop body after [await fetchWithRetry(...)] resolved with [f]:
    [None] is the [break]. *)
Definition primeCache_resume (f : option string) (a : App) : option App :=
  match f with
  | Some t => if falsy f then None else Some (offer t a)
  | None => None
  end.

(** [while (cacheRef.current.length < target) { ... }], [target] being 4
    in every version.  The loop need not end
    (the backend may keep answering with texts already seen), so [fuel]
    bounds the number of [fetchWithRetry] calls made before the run is
    left [Suspended]. *)
Fixpoint primeCache_loop (fuel : nat) (a : App) : M (progress * App) :=
  if negb (length (cacheRef a) <? target)%nat then ret (Finished, a)
  else
    match fuel with
    | O => ret (Suspended, a)
    | S fuel' =>
        f <~ fetchWithRetry ;;
        match primeCache_resume f a with
        | Some a' => primeCache_loop fuel' a'
        | None => ret (Finished, a)
        end
    end.

(** [cacheRef.current.shift()] *)
Definition shift (a : App) : option string * App :=
  match cacheRef a with
  | [] => (None, a)
  | f :: rest => (Some f, set_cacheRef rest a)
  end.

(** [FALLBACK[Math.floor(Math.random() * FALLBACK.length)]], with the
    version's case normalisation; [None] when the index misses the array
    (reading a property of [undefined] throws). *)
Definition fallback_index (r : rand01) : Z :=
  Qfloor (rv r * inject_Z (Z.of_nat (length FALLBACK))).

Definition pickFallback : M (option string) :=
  r <~ Math_random ;;
  ret (if (fallback_index r <? 0)%Z then None
       else option_map fallback_case
              (nth_error FALLBACK (Z.to_nat (fallback_index r)))).

(** [primeCache()] without [await]: the refill is only fired. *)
Definition fire_primeCache (a : App) : App := set_refills (S (refills a)) a.

(** The tail shared by [getNextFact] and the initial load: fall back when
    nothing was fetched, publish, fire the refill; [finally] clears
    [busy]. *)
Definition publish (f : option string) (a : App) : M settled :=
  f <~ (if falsy f then pickFallback else ret f) ;;
  match f with
  | Some t => ret (Resolved (set_busy false (fire_primeCache (set_fact t a))))
  | None => ret (Rejected (set_busy false a))
  end.

Definition getNextFact (a : App) : M settled :=
  let a := set_busy true a in
  let '(f, a) := shift a in
  f <~ (if falsy f then fetchWithRetry else ret f) ;;
  publish f a.

End Component.

(** ** [src/App.js]: the version with the rate limiter *)

Module AppJs.

Definition FALLBACK : list string :=
  [ "honey never spoils.";
    "octopuses have three hearts.";
    "sharks existed before trees.";
    "wombat poop is cube-shaped.";
    "bananas are berries; strawberries arenâ€™t." ].

(** The body of the [try] block: [t] must be truthy, and [t.toLowerCase()]
    must exist, which among JSON values only strings offer; anything else
    lands in the [catch]. *)
Definition try_text (r : reply) : option string :=
  match r with
  | NetError => None
  | Body (VStr s) => if truthy (VStr s) then Some (toLowerCase s) else None
  | Body _ => None
  end.

(** [while (attempt < 3)]: the guard is the source's; [fuel] only makes the
    recursion structural and is never what stops the loop
    ([retry_loop_fuel] below). *)
Fixpoint retry_loop (fuel attempt : nat) (delay : Z) : M (option string) :=
  if negb (attempt <? 3)%nat then ret None
  else
    match fuel with
    | O => ret None
    | S fuel' =>
        r <~ fetchJson_toText ;;
        match try_text r with
        | Some t => ret (Some t)
        | None =>
            sleep (inject_Z delay) ;;;
            retry_loop fuel' (S attempt) (delay * 2)
        end
    end.

Definition fetchWithRetry : M (option string) := retry_loop 3 0 400.

(** The rate limit settings. *)
Definition MAX_PER_MINUTE : nat := 5.
Definition WINDOW_MS : Z := 60000.

Definition primeCache (fuel : nat) : App -> M (progress * App) :=
  primeCache_loop fetchWithRetry 4 fuel.

Definition getNextFact : App -> M settled :=
  getNextFact fetchWithRetry FALLBACK toLowerCase.

(** [Math.min(...ts)] *)
Definition Math_min (ts : list Z) : num :=
  fold_right (fun t acc =>
                match acc with
                | PosInf => Fin t
                | Fin m => Fin (Z.min t m)
                end) PosInf ts.

Definition num_plus (x : num) (k : Z) : num :=
  match x with Fin z => Fin (z + k) | PosInf => PosInf end.

Definition num_truthy (x : num) : bool :=
  match x with Fin z => negb (z =? 0)%Z | PosInf => true end.

(** [now < x] *)
Definition before (now : Z) (x : num) : bool :=
  match x with Fin z => (now <? z)%Z | PosInf => true end.

Definition canTap (a : App) : M (bool * App) :=
  now <~ Date_now ;;
  let a := set_tapsRef (filter (fun t => now - t < WINDOW_MS) (tapsRef a)) a in
  if (MAX_PER_MINUTE <=? length (tapsRef a))%nat then
    let oldest := Math_min (tapsRef a) in
    let nextAt := num_plus oldest WINDOW_MS in
    ret (false, set_showLimit true (set_limitUntil (Some nextAt) a))
  else
    ret (true, set_tapsRef (tapsRef a ++ [now]) a).

(** The effect run once at mount. *)
Definition initialLoad (a : App) : M settled :=
  let a := set_busy true a in
  f <~ fetchWithRetry ;;
  publish FALLBACK toLowerCase f a.

(** [limitUntil && Date.now() < limitUntil]: the clock is read only when
    [limitUntil] is truthy. *)
Definition still_limited (a : App) : M bool :=
  match limitUntil a with
  | Some l => if num_truthy l then now <~ Date_now ;; ret (before now l)
              else ret false
  | None => ret false
  end.

(** [getNextFact()] is not awaited by the handler; the model runs it to its
    end, [busy] keeping a second tap from overlapping it. *)
Definition handlePress (a : App) : M App :=
  if busy a then ret a
  else
    blocked <~ still_limited a ;;
    if blocked then ret (set_showLimit true a)
    else
      r <~ canTap a ;;
      if fst r then (s <~ getNextFact (snd r) ;; ret (cells s))
      else ret (snd r).

(** One firing of the countdown interval (or, with no limit set, the
    effect's [setRemaining(0)]). *)
Definition countdown (a : App) : M App :=
  match limitUntil a with
  | Some l =>
      if num_truthy l then
        now <~ Date_now ;;
        let msLeft :=
          match l with
          | Fin z => Fin (Z.max 0 (z - now))
          | PosInf => PosInf
          end in
        let secs :=
          match msLeft with
          | Fin m => Fin (- ((- m) / 1000))
          | PosInf => PosInf
          end in
        let a := set_remaining secs a in
        match msLeft with
        | Fin m => if (m <=? 0)%Z
                   then ret (set_showLimit false (set_limitUntil None a))
                   else ret a
        | PosInf => ret a
        end
      else ret (set_remaining (Fin 0) a)
  | None => ret (set_remaining (Fin 0) a)
  end.

(** The cells at mount. *)
Definition init : App :=
  mkApp "loading fun factâ€¦" false [] ∅ [] None (Fin 0) false 0.

(** What can happen to the mounted component, one atomic turn each. *)
Inductive event : Type :=
| EvInitialLoad
| EvPress
| EvRefill (fuel : nat)          (* a fired primeCache runs [fuel] rounds *)
| EvResume (f : option string)   (* a suspended primeCache gets its answer *)
| EvCountdown
| EvDismiss.                     (* the popup's ok button *)

Definition exec (e : event) (a : App) : M App :=
  match e with
  | EvInitialLoad => s <~ initialLoad a ;; ret (cells s)
  | EvPress => handlePress a
  | EvRefill fuel => r <~ primeCache fuel a ;; ret (snd r)
  | EvResume f => ret (default a (primeCache_resume f a))
  | EvCountdown => countdown a
  | EvDismiss => ret (set_showLimit false a)
  end.

Fixpoint run (es : list event) (a : App) : M App :=
  match es with
  | [] => ret a
  | e :: es' => a' <~ exec e a ;; run es' a'
  end.

End AppJs.

(** ** The second version: no limiter, [nextFact] for [getNextFact] *)

Module Part001.

Definition FALLBACK : list string :=
  [ "honey never spoils.";
    "octopuses have three hearts.";
    "sharks existed before trees.";
    "wombat poop is cube-shaped.";
    "bananas are berries; strawberries aren’t." ].

(** The same text as in [src/App.js]. *)
Definition fetchWithRetry : M (option string) := AppJs.fetchWithRetry.

Definition primeCache (fuel : nat) : App -> M (progress * App) :=
  primeCache_loop fetchWithRetry 4 fuel.

Definition nextFact : App -> M settled :=
  getNextFact fetchWithRetry FALLBACK toLowerCase.

Definition init : App :=
  mkApp "loading fun fact…" false [] ∅ [] None (Fin 0) false 0.

End Part001.

(** ** The first version: backoff with jitter *)

Module Part000.

Definition MAX_RETRIES : nat := 3.
Definition BASE_DELAY_MS : Q := 400%Q.
Definition JITTER : Q := (1 # 4)%Q.
Definition CACHE_TARGET_SIZE : nat := 4.

Definition FALLBACK : list string :=
  [ "Honey never spoils.";
    "Octopuses have three hearts.";
    "Sharks existed before trees.";
    "Wombat poop is cube-shaped.";
    "Bananas are berries; strawberries aren’t." ].

(** [if (!text || typeof text !== "string") throw ...; return text;] *)
Definition try_text (r : reply) : option string :=
  match r with
  | NetError => None
  | Body (VStr s) => if truthy (VStr s) then Some s else None
  | Body _ => None
  end.

(** [base], [jitter] and [delay] of the [catch] block, over the rationals. *)
Definition backoff_base (base_ms : Q) (attempt : nat) : Q :=
  (base_ms * inject_Z (2 ^ Z.of_nat attempt))%Q.

Definition backoff_delay (base_ms jitter_frac : Q) (attempt : nat)
    (r : rand01) : Q :=
  let base := backoff_base base_ms attempt in
  let jitter := (base * (rv r * 2 * jitter_frac - jitter_frac))%Q in
  Qmax 100 (base + jitter)%Q.

(** Falling out of the loop: warn, return [null]. *)
Definition giving_up : M (option string) := console_warn ;;; ret None.

(** [while (attempt <= MAX_RETRIES)], with the tuning as arguments. *)
Fixpoint retry_loop (max_retries : nat) (base_ms jitter_frac : Q)
    (fuel attempt : nat) : M (option string) :=
  if negb (attempt <=? max_retries)%nat then giving_up
  else
    match fuel with
    | O => giving_up
    | S fuel' =>
        r <~ fetchJson_toText ;;
        match try_text r with
        | Some t => ret (Some t)
        | None =>
            if (attempt =? max_retries)%nat then giving_up
            else
              x <~ Math_random ;;
              sleep (backoff_delay base_ms jitter_frac attempt x) ;;;
              retry_loop max_retries base_ms jitter_frac fuel' (S attempt)
        end
    end.

Definition fetchWithRetry_tuned (max_retries : nat) (base_ms jitter_frac : Q)
  : M (option string) :=
  retry_loop max_retries base_ms jitter_frac (S max_retries) 0.

Definition fetchWithRetry : M (option string) :=
  fetchWithRetry_tuned MAX_RETRIES BASE_DELAY_MS JITTER.

Definition primeCache (fuel : nat) : App -> M (progress * App) :=
  primeCache_loop fetchWithRetry CACHE_TARGET_SIZE fuel.

Definition getNextFact : App -> M settled :=
  getNextFact fetchWithRetry FALLBACK (fun t => t).

Definition init : App :=
  mkApp "Loading fun fact…" false [] ∅ [] None (Fin 0) false 0.

End Part000.

(** ** The three versions side by side *)

Inductive version : Type := First | Second | Current.

Definition fetchWithRetry_of (v : version) : M (option string) :=
  match v with
  | First => Part000.fetchWithRetry
  | Second => Part001.fetchWithRetry
  | Current => AppJs.fetchWithRetry
  end.

Definition try_text_of (v : version) : reply -> option string :=
  match v with
  | First => Part000.try_text
  | Second | Current => AppJs.try_text
  end.

Definition FALLBACK_of (v : version) : list string :=
  match v with
  | First => Part000.FALLBACK
  | Second => Part001.FALLBACK
  | Current => AppJs.FALLBACK
  end.

Definition fallback_case_of (v : version) : string -> string :=
  match v with
  | First => fun t => t
  | Second | Current => toLowerCase
  end.

Definition target_of (v : version) : nat :=
  match v with
  | First => Part000.CACHE_TARGET_SIZE
  | Second | Current => 4%nat
  end.

Definition init_of (v : version) : App :=
  match v with
  | First => Part000.init
  | Second => Part001.init
  | Current => AppJs.init
  end.

Definition primeCache_of (v : version) (fuel : nat)
  : App -> M (progress * App) :=
  primeCache_loop (fetchWithRetry_of v) (target_of v) fuel.

Definition getNextFact_of (v : version) : App -> M settled :=
  getNextFact (fetchWithRetry_of v) (FALLBACK_of v) (fallback_case_of v).

(** The turns of a session without the limiter (the first two versions
    hand every idle tap, and the mount effect, to [getNextFact]). *)
Inductive turn : Type :=
| TurnNextFact
| TurnRefill (fuel : nat)
| TurnResume (f : option string).

Definition turn_exec (v : version) (t : turn) (a : App) : M App :=
  match t with
  | TurnNextFact => s <~ getNextFact_of v a ;; ret (cells s)
  | TurnRefill fuel => r <~ primeCache_of v fuel a ;; ret (snd r)
  | TurnResume f => ret (default a (primeCache_resume f a))
  end.

Fixpoint turns (v : version) (ts : list turn) (a : App) : M App :=
  match ts with
  | [] => ret a
  | t :: ts' => a' <~ turn_exec v t a ;; turns v ts' a'
  end.

(** ** Reading a run of the retry loop off the network

    [leading_failures try net start n]: how many of the [n] requests
    [start], [start + 1], ... fail before the first one that [try]
    accepts. *)
Fixpoint leading_failures (try : reply -> option string)
    (nw : nat -> reply) (start n : nat) : nat :=
  match n with
  | O => O
  | S n' =>
      match try (nw start) with
      | Some _ => O
      | None => S (leading_failures try nw (S start) n')
      end
  end.

(** ** One request, in detail *)

(** What [res.json()] can resolve with, as far as [d?.text] looks into it:
    the elements of an array are never read; an object is its fields. *)
Inductive json : Type :=
| JNull
| JBool (b : bool)
| JNum (z : Z)
| JStr (s : string)
| JArr
| JObj (fields : gmap string jsval).

(** What [fetch] does with one request: its promise rejects, or it resolves
    with a response of which [fetchJson] reads [res.ok] and [res.json()]
    ([None]: the body is not JSON and [res.json()] rejects). *)
Inductive response : Type :=
| Unreachable
| Answer (ok : bool) (body : option json).

(** [fetchJson]: [None] is a throw. *)
Definition fetchJson (r : response) : option json :=
  match r with
  | Unreachable => None
  | Answer ok body => if negb ok then None else body
  end.

(** [(d) => d?.text] *)
Definition toText (d : json) : jsval :=
  match d with
  | JObj fields => default VUndefined (fields !! "text")
  | JNull | JBool _ | JNum _ | JStr _ | JArr => VUndefined
  end.

(** What the [try] block gets to see of a response. *)
Definition reply_of (r : response) : reply :=
  match fetchJson r with
  | Some d => Body (toText d)
  | None => NetError
  end.

(** ** Vocabulary of the statements *)

(** The first [k] waits of the doubling loop: [delay], [2 * delay], ... *)
Definition doubling (delay : Z) (k : nat) : list Q :=
  map (fun i => inject_Z (delay * 2 ^ Z.of_nat i)) (seq 0 k).

(** [k] waits of the jittered loop from [attempt] on, the [i]-th computed
    with the random value number [draw + i]. *)
Definition jittered (base_ms jf : Q) (rn : nat -> rand01)
    (draw attempt k : nat) : list Q :=
  map (fun i => Part000.backoff_delay base_ms jf (attempt + i)%nat
                  (rn (draw + i)%nat))
      (seq 0 k).

(** The queue holds no text twice, only texts of the seen-set, and no
    empty text. *)
Definition cache_ok (a : App) : Prop :=
  NoDup (cacheRef a) /\
  (forall f, f ∈ cacheRef a -> f ∈ seenRef a) /\
  (forall f, f ∈ cacheRef a -> f <> "").

(** The limiter's cells are the same in both states. *)
Definition same_limiter (a a' : App) : Prop :=
  tapsRef a' = tapsRef a /\ limitUntil a' = limitUntil a /\
  remaining a' = remaining a /\ showLimit a' = showLimit a.

(** What a turn of the cache side may do: keep [cache_ok], grow the
    seen-set, leave the limiter alone. *)
Definition cache_step (a a' : App) : Prop :=
  (cache_ok a -> cache_ok a') /\ seenRef a ⊆ seenRef a' /\ same_limiter a a'.

(** The two refs of the cache side are the same in both states. *)
Definition same_cache (a a' : App) : Prop :=
  cacheRef a' = cacheRef a /\ seenRef a' = seenRef a.

(** Texts enter the seen-set exactly as they are appended to the queue. *)
Definition pushed (a a' : App) : Prop :=
  exists new,
    cacheRef a' = (cacheRef a ++ new)%list /\
    forall x, x ∈ seenRef a' <-> x ∈ new \/ x ∈ seenRef a.

(** [a] with the limiter's cells overwritten. *)
Definition with_limiter (taps : list Z) (lim : option num) (rem : num)
    (shown : bool) (a : App) : App :=
  set_tapsRef taps (set_limitUntil lim (set_remaining rem
    (set_showLimit shown a))).

(** The attempts a version's [fetchWithRetry] has at most. *)
Definition attempts_of (v : version) : nat :=
  match v with First => 4%nat | Second | Current => 3%nat end.

(** The sum of a list of waits. *)
Definition total_wait (l : list Q) : Q := fold_right Qplus 0%Q l.

(** The pruning of [canTap] at clock reading [now]. *)
Definition in_window (now : Z) (ts : list Z) : list Z :=
  filter (fun t => now - t < AppJs.WINDOW_MS) ts.

(** The fact on display and every queued text are fixed by
    [toLowerCase]. *)
Definition lower_ok (a : App) : Prop :=
  toLowerCase (fact a) = fact a /\
  forall f, f ∈ cacheRef a -> toLowerCase f = f.

(** The seen-set has grown, and no text it held has entered the queue. *)
Definition no_reentry (a a' : App) : Prop :=
  seenRef a ⊆ seenRef a' /\
  forall t, t ∈ seenRef a -> t ∈ cacheRef a' -> t ∈ cacheRef a.

(** [limitUntil] is [null] or an integer, [remaining] a natural number. *)
Definition finite_ok (a : App) : Prop :=
  (limitUntil a = None \/ exists z, limitUntil a = Some (Fin z)) /\
  exists s, remaining a = Fin s /\ 0 <= s.

(** ** Worlds and states to run the model on *)

(** [Math.random()] returning 0.5. *)
Definition half : rand01 := Rand01 (1 # 2) eq_refl.

(** A fresh world over the network [nw]: the clock stands at 0, every
    random value is [half]. *)
Definition world_of (nw : nat -> reply) : World :=
  mkWorld nw 0 (fun _ => half) 0 (fun _ => 0) 0 [] 0.

(** No request ever succeeds. *)
Definition offline : World := world_of (fun _ => NetError).

(** The first request is answered with a capitalised text. *)
Definition honey : World :=
  world_of (fun _ => Body (VStr "Honey never spoils.")).

(** A world whose second request is the first to succeed. *)
Definition flaky : World :=
  world_of (fun n => match n with
                     | 1%nat => Body (VStr "Sharks Existed Before Trees.")
                     | _ => NetError
                     end).

(** The first three requests fail, every later one is answered with the
    text that [half] picks from the fallback list. *)
Definition late_sharks : World :=
  world_of (fun n => if (n <? 3)%nat then NetError
                     else Body (VStr "Sharks existed before trees.")).

(** A fresh world whose clock reads [t] and whose network is down. *)
Definition at_time (t : Z) : World :=
  mkWorld (fun _ => NetError) 0 (fun _ => half) 0 (fun _ => t) 0 [] 0.

(** Five counted taps within ten seconds. *)
Definition five_taps : App :=
  mkApp "honey never spoils." false [] ∅ [1000; 3000; 5000; 7000; 9000]
        None (Fin 0) false 0.

(** The spec's scenario: the queue holds fact-a and fact-b. *)
Definition two_cached : App :=
  mkApp "loading" false ["fact-a"; "fact-b"] {[ "fact-a"; "fact-b" ]}
        [] None (Fin 0) false 0.

(** A world whose clock reads 10 s, 30 s, 61 s, then 61.5 s; the network is
    down. *)
Definition ticking : World :=
  mkWorld (fun _ => NetError) 0 (fun _ => half) 0
          (fun n => match n with
                    | 0%nat => 10000
                    | 1%nat => 30000
                    | 2%nat => 61000
                    | _ => 61500
                    end) 0 [] 0.

(** A backend that answers request [n] with the letter number [n]. *)
Definition alphabet : World :=
  world_of (fun n => Body (VStr (String (ascii_of_nat (65 + n)) ""))).

(** fact-a was shown and is in the seen-set; a backend that keeps serving
    it cannot get it queued again. *)
Definition fact_a_shown : App :=
  mkApp "fact-a" false ["fact-b"] {[ "fact-a"; "fact-b" ]}
        [] None (Fin 0) false 0.

(** * Properties *)

Lemma world_eta w :
  mkWorld (net w) (fetches w) (rnd w) (draws w) (clock w) (reads w)
          (slept w) (warnings w) = w.
Proof. by destruct w. Qed.

Lemma leading_failures_le try nw start n :
  (leading_failures try nw start n <= n)%nat.
Proof.
  revert start; induction n as [|n IH]; intros start; simpl; [lia|].
  destruct (try (nw start)); [lia|]. specialize (IH (S start)). lia.
Qed.

Lemma leading_failures_all try nw start n :
  (forall i, (i < n)%nat -> try (nw (start + i)%nat) = None) ->
  leading_failures try nw start n = n.
Proof.
  revert start; induction n as [|n IH]; intros start H; simpl; [done|].
  pose proof (H O ltac:(lia)) as H0. rewrite Nat.add_0_r in H0. rewrite H0.
  f_equal. apply IH. intros i Hi.
  replace (S start + i)%nat with (start + S i)%nat by lia. apply H. lia.
Qed.

Lemma leading_failures_first try nw start n k t :
  (k < n)%nat ->
  (forall i, (i < k)%nat -> try (nw (start + i)%nat) = None) ->
  try (nw (start + k)%nat) = Some t ->
  leading_failures try nw start n = k.
Proof.
  revert start k; induction n as [|n IH]; intros start k Hk Hf Hs; [lia|].
  simpl. destruct k as [|k].
  - rewrite Nat.add_0_r in Hs. by rewrite Hs.
  - pose proof (Hf O ltac:(lia)) as H0. rewrite Nat.add_0_r in H0. rewrite H0.
    f_equal. apply IH; [lia| |].
    + intros i Hi. replace (S start + i)%nat with (start + S i)%nat by lia.
      apply Hf. lia.
    + by replace (S start + k)%nat with (start + S k)%nat by lia.
Qed.

(** The first request past the leading failures is a success, when there
    is one within the bound. *)
Lemma leading_failures_hit try nw start n :
  (leading_failures try nw start n < n)%nat ->
  is_Some (try (nw (start + leading_failures try nw start n)%nat)).
Proof.
  revert start; induction n as [|n IH]; intros start; simpl; [lia|].
  destruct (try (nw start)) eqn:E.
  - intros _. rewrite Nat.add_0_r, E. eauto.
  - intros H. replace (start + S (leading_failures try nw (S start) n))%nat
      with (S start + leading_failures try nw (S start) n)%nat by lia.
    apply IH. lia.
Qed.

Lemma leading_failures_miss try nw start n i :
  (i < leading_failures try nw start n)%nat ->
  try (nw (start + i)%nat) = None.
Proof.
  revert start i; induction n as [|n IH]; intros start i; simpl; [lia|].
  destruct (try (nw start)) eqn:E; [lia|].
  destruct i as [|i]; intros H.
  - by rewrite Nat.add_0_r.
  - replace (start + S i)%nat with (S start + i)%nat by lia. apply IH. lia.
Qed.

(** *** The doubling retry loop of [src/App.js] *)

Lemma doubling_S delay k :
  doubling delay (S k) = inject_Z delay :: doubling (delay * 2) k.
Proof.
  unfold doubling. simpl. f_equal; [f_equal; lia|].
  rewrite <- seq_shift, map_map. apply map_ext. intros i.
  f_equal. rewrite Nat2Z.inj_succ, Z.pow_succ_r by lia. lia.
Qed.

Lemma AppJs_retry_loop_eq fuel attempt delay w :
  (3 - attempt <= fuel)%nat ->
  AppJs.retry_loop fuel attempt delay w =
  let n := (3 - attempt)%nat in
  let k := leading_failures AppJs.try_text (net w) (fetches w) n in
  (if (k <? n)%nat then AppJs.try_text (net w (fetches w + k)%nat) else None,
   mkWorld (net w) (fetches w + (if (k <? n)%nat then S k else n))%nat
           (rnd w) (draws w) (clock w) (reads w)
           (slept w ++ doubling delay k) (warnings w)).
Proof.
  revert attempt delay w.
  induction fuel as [|fuel IH]; intros attempt delay w Hf.
  - assert (3 - attempt = 0)%nat as -> by lia. simpl.
    destruct (attempt <? 3)%nat eqn:E; [apply Nat.ltb_lt in E; lia|]. simpl.
    unfold ret, doubling. simpl. rewrite Nat.add_0_r, app_nil_r.
    by rewrite world_eta.
  - simpl. destruct (attempt <? 3)%nat eqn:E; simpl.
    + apply Nat.ltb_lt in E.
      destruct (3 - attempt)%nat as [|n'] eqn:En; [lia|].
      assert (n' = 3 - S attempt)%nat as Hn' by lia.
      unfold bind at 1. unfold fetchJson_toText at 1. simpl.
      destruct (AppJs.try_text (net w (fetches w))) as [t|] eqn:Et.
      * unfold ret, doubling. simpl. rewrite Nat.add_0_r, Et, app_nil_r.
        do 2 f_equal. lia.
      * unfold bind, sleep. rewrite IH by lia. cbv zeta.
        cbn [net fetches rnd draws clock reads slept warnings].
        rewrite <- Hn'.
        set (k := leading_failures _ _ _ _).
        change (S k <? S n')%nat with (k <? n')%nat.
        rewrite doubling_S, <- app_assoc. simpl.
        replace (fetches w + S k)%nat with (S (fetches w + k)) by lia.
        f_equal. f_equal. destruct (k <? n')%nat; lia.
    + apply Nat.ltb_ge in E. assert (3 - attempt = 0)%nat as -> by lia.
      unfold ret, doubling. simpl. rewrite Nat.add_0_r, app_nil_r.
      by rewrite world_eta.
Qed.

(** More fuel than the guard lets the loop use changes nothing. *)
Lemma retry_loop_fuel fuel attempt delay w :
  (3 - attempt <= fuel)%nat ->
  AppJs.retry_loop fuel attempt delay w =
  AppJs.retry_loop (3 - attempt) attempt delay w.
Proof. intros H. by rewrite !AppJs_retry_loop_eq by lia. Qed.

(** *** The jittered retry loop of the first version *)

Lemma jittered_S b j rn d a k :
  jittered b j rn d a (S k) =
  Part000.backoff_delay b j a (rn d) :: jittered b j rn (S d) (S a) k.
Proof.
  unfold jittered. simpl. rewrite !Nat.add_0_r. f_equal.
  rewrite <- seq_shift, map_map. apply map_ext. intros i.
  by rewrite !Nat.add_succ_r.
Qed.

Lemma Part000_retry_loop_eq mx b j fuel attempt w :
  (S mx - attempt <= fuel)%nat ->
  Part000.retry_loop mx b j fuel attempt w =
  let n := (S mx - attempt)%nat in
  let k := leading_failures Part000.try_text (net w) (fetches w) n in
  if (k <? n)%nat then
    (Part000.try_text (net w (fetches w + k)%nat),
     mkWorld (net w) (fetches w + S k)%nat (rnd w) (draws w + k)%nat
             (clock w) (reads w)
             (slept w ++ jittered b j (rnd w) (draws w) attempt k)
             (warnings w))
  else
    (None,
     mkWorld (net w) (fetches w + n)%nat (rnd w) (draws w + (n - 1))%nat
             (clock w) (reads w)
             (slept w ++ jittered b j (rnd w) (draws w) attempt (n - 1))
             (S (warnings w))).
Proof.
  revert attempt w.
  induction fuel as [|fuel IH]; intros attempt w Hf.
  - assert (S mx - attempt = 0)%nat as -> by lia.
    cbv zeta. cbn [leading_failures Nat.ltb Nat.leb Nat.sub].
    unfold Part000.retry_loop.
    destruct (attempt <=? mx)%nat eqn:E; [apply Nat.leb_le in E; lia|].
    cbn [negb]. unfold Part000.giving_up, bind, console_warn, ret, jittered.
    cbn [seq map]. by rewrite !Nat.add_0_r, app_nil_r.
  - cbn [Part000.retry_loop].
    destruct (attempt <=? mx)%nat eqn:E; cbn [negb].
    + apply Nat.leb_le in E.
      destruct (S mx - attempt)%nat as [|n'] eqn:En; [lia|].
      assert (n' = S mx - S attempt)%nat as Hn' by lia.
      unfold bind at 1. unfold fetchJson_toText at 1.
      cbv zeta. cbn [leading_failures].
      destruct (Part000.try_text (net w (fetches w))) as [t|] eqn:Et.
      * change (0 <? S n')%nat with true. cbv iota.
        unfold ret, jittered. cbn [seq map].
        by rewrite !Nat.add_0_r, Et, app_nil_r, Nat.add_1_r.
      * set (k := leading_failures _ _ _ _).
        change (S k <? S n')%nat with (k <? n')%nat.
        destruct (attempt =? mx)%nat eqn:Em.
        -- apply Nat.eqb_eq in Em. assert (n' = 0)%nat as -> by lia.
           cbn [Nat.ltb Nat.leb Nat.sub].
           unfold Part000.giving_up, bind, console_warn, ret, jittered.
           cbn [seq map net fetches rnd draws clock reads slept warnings].
           by rewrite Nat.add_0_r, app_nil_r, Nat.add_1_r.
        -- apply Nat.eqb_neq in Em.
           unfold bind, Math_random, sleep. rewrite IH by lia. cbv zeta.
           cbn [net fetches rnd draws clock reads slept warnings].
           rewrite <- Hn'. fold k.
           destruct (k <? n')%nat eqn:Ek.
           ++ rewrite jittered_S, <- app_assoc. cbn [app].
              replace (fetches w + S k)%nat with (S (fetches w + k)) by lia.
              do 2 f_equal; lia.
           ++ destruct n' as [|n'']; [lia|].
              cbn [Nat.sub]. rewrite Nat.sub_0_r.
              rewrite jittered_S, <- app_assoc. cbn [app].
              do 2 f_equal; lia.
    + apply Nat.leb_gt in E. assert (S mx - attempt = 0)%nat as -> by lia.
      cbv zeta. cbn [leading_failures Nat.ltb Nat.leb Nat.sub].
      unfold Part000.giving_up, bind, console_warn, ret, jittered.
      cbn [seq map]. by rewrite !Nat.add_0_r, app_nil_r.
Qed.

Lemma Part000_retry_loop_fuel mx b j fuel attempt w :
  (S mx - attempt <= fuel)%nat ->
  Part000.retry_loop mx b j fuel attempt w =
  Part000.retry_loop mx b j (S mx - attempt) attempt w.
Proof. intros H. by rewrite !Part000_retry_loop_eq by lia. Qed.

(** ** C2: attempts made against a dead backend *)

(** C2, as stated, at [src/App.js]: against a backend that fails every
    request the claim wants four requests before the [null]; the loop
    [while (attempt < 3)] makes three. *)
Lemma C2_counterexample :
  ~ ((forall i, (fetches offline <= i)%nat ->
                AppJs.try_text (net offline i) = None) ->
     fst (AppJs.fetchWithRetry offline) = None /\
     fetches (snd (AppJs.fetchWithRetry offline)) =
       (fetches offline + 4)%nat).
Proof.
  intros H. destruct H as [_ H]; [done|]. vm_compute in H. discriminate.
Qed.

(** C2, amended: when every request fails, the first version's
    [fetchWithRetry] makes exactly [MAX_RETRIES + 1] requests (4 with the
    default tuning) and returns [null]; the [fetchWithRetry] of [src/App.js]
    and of the second version makes exactly 3 and returns [null]. *)
Theorem C2_attempts_when_all_fail :
  (forall mx b j w,
      (forall i, (fetches w <= i)%nat -> Part000.try_text (net w i) = None) ->
      fst (Part000.fetchWithRetry_tuned mx b j w) = None /\
      fetches (snd (Part000.fetchWithRetry_tuned mx b j w)) =
        (fetches w + (mx + 1))%nat) /\
  (forall w,
      (forall i, (fetches w <= i)%nat -> Part000.try_text (net w i) = None) ->
      fst (Part000.fetchWithRetry w) = None /\
      fetches (snd (Part000.fetchWithRetry w)) = (fetches w + 4)%nat) /\
  (forall w,
      (forall i, (fetches w <= i)%nat -> AppJs.try_text (net w i) = None) ->
      fst (AppJs.fetchWithRetry w) = None /\
      fetches (snd (AppJs.fetchWithRetry w)) = (fetches w + 3)%nat /\
      Part001.fetchWithRetry w = AppJs.fetchWithRetry w).
Proof.
  assert (forall mx b j w,
      (forall i, (fetches w <= i)%nat -> Part000.try_text (net w i) = None) ->
      fst (Part000.fetchWithRetry_tuned mx b j w) = None /\
      fetches (snd (Part000.fetchWithRetry_tuned mx b j w)) =
        (fetches w + (mx + 1))%nat) as Hold.
  { intros mx b j w Hdead. unfold Part000.fetchWithRetry_tuned.
    rewrite Part000_retry_loop_eq by lia. cbv zeta.
    rewrite Nat.sub_0_r, leading_failures_all
      by (intros i _; apply Hdead; lia).
    rewrite Nat.ltb_irrefl. cbn [fst snd fetches]. split; [done|lia]. }
  split; [exact Hold|]. split.
  - intros w Hdead. apply (Hold Part000.MAX_RETRIES _ _ w Hdead).
  - intros w Hdead. unfold Part001.fetchWithRetry, AppJs.fetchWithRetry.
    rewrite AppJs_retry_loop_eq by lia. cbv zeta.
    rewrite Nat.sub_0_r, leading_failures_all
      by (intros i _; apply Hdead; lia).
    rewrite Nat.ltb_irrefl. cbn [fst snd fetches]. done.
Qed.

Lemma C2_witness :
  fst (Part000.fetchWithRetry offline) = None /\
  fetches (snd (Part000.fetchWithRetry offline)) = 4%nat /\
  fst (AppJs.fetchWithRetry offline) = None /\
  fetches (snd (AppJs.fetchWithRetry offline)) = 3%nat.
Proof.
  destruct C2_attempts_when_all_fail as (_ & Hold & Hnew).
  destruct (Hold offline) as [H1 H2]; [intros i _; reflexivity|].
  destruct (Hnew offline) as (H3 & H4 & _); [intros i _; reflexivity|].
  exact (conj H1 (conj H2 (conj H3 H4))).
Defined.

(** ** C3: the waits between attempts *)

Lemma rv_bounds (r : rand01) : (0 <= rv r /\ rv r < 1)%Q.
Proof.
  destruct r as [q Hq]. simpl. apply andb_true_iff in Hq as [H0 H1].
  apply Qle_bool_iff in H0. split; [done|].
  apply Qnot_le_lt. intros H. apply Qle_bool_iff in H.
  rewrite H in H1. discriminate.
Qed.

Lemma backoff_base_nonneg b i : (0 <= b)%Q -> (0 <= Part000.backoff_base b i)%Q.
Proof.
  intros Hb. unfold Part000.backoff_base. apply Qmult_le_0_compat; [done|].
  change 0%Q with (inject_Z 0). rewrite <- Zle_Qle. apply Z.pow_nonneg. lia.
Qed.

(** The delay is the base perturbed by at most the jitter fraction either
    way, then floored at 100 ms. *)
Lemma backoff_delay_spec b j i r :
  (0 <= b)%Q -> (0 <= j)%Q ->
  let base := Part000.backoff_base b i in
  let u := (2 * rv r - 1)%Q in
  let d := Part000.backoff_delay b j i r in
  (-1 <= u)%Q /\ (u < 1)%Q /\
  (d == Qmax 100 (base + base * j * u))%Q /\
  (100 <= d)%Q /\
  (Qmax 100 (base * (1 - j)) <= d)%Q /\
  (d <= Qmax 100 (base * (1 + j)))%Q.
Proof.
  intros Hb Hj base u d.
  destruct (rv_bounds r) as [Hr0 Hr1].
  pose proof (backoff_base_nonneg b i Hb) as HB. fold base in HB.
  assert (0 <= base * j)%Q as HBj by (by apply Qmult_le_0_compat).
  assert (-1 <= u)%Q as Hu0 by (unfold u; lra).
  assert (u < 1)%Q as Hu1 by (unfold u; lra).
  assert (base + base * (rv r * 2 * j - j) == base + base * j * u)%Q as E
    by (unfold u; ring).
  assert (base * (1 - j) <= base + base * j * u)%Q as Hlo.
  { assert (0 <= base * j * (u + 1))%Q
      by (apply Qmult_le_0_compat; [done|lra]). lra. }
  assert (base + base * j * u <= base * (1 + j))%Q as Hhi.
  { assert (0 <= base * j * (1 - u))%Q
      by (apply Qmult_le_0_compat; [done|lra]). lra. }
  unfold d, Part000.backoff_delay. fold base. cbv zeta.
  repeat split; try done.
  - by rewrite E.
  - apply Q.le_max_l.
  - rewrite E. by apply Q.max_le_compat_l.
  - rewrite E. by apply Q.max_le_compat_l.
Qed.

(** C3, as stated, at [src/App.js]: against a dead backend the third and
    last attempt is followed by a wait of its own (1600 ms), so there are as
    many waits as attempts, not one fewer. *)
Lemma C3_counterexample :
  fst (AppJs.fetchWithRetry offline) = None /\
  fetches (snd (AppJs.fetchWithRetry offline)) = 3%nat /\
  slept (snd (AppJs.fetchWithRetry offline)) =
    [inject_Z 400; inject_Z 800; inject_Z 1600] /\
  ~ (length (slept (snd (AppJs.fetchWithRetry offline))) =
     (fetches (snd (AppJs.fetchWithRetry offline)) - 1)%nat).
Proof. repeat split. vm_compute. discriminate. Qed.

(** C3, amended.  In the first version the claim holds: a call that makes
    [n] attempts waits [n - 1] times, the wait after failed attempt [i]
    being [BASE_DELAY_MS * 2^i] moved by at most the fraction [JITTER]
    either way and floored at 100 ms, and nothing is waited after the last
    attempt.  In [src/App.js] and the second version every failed attempt,
    the last one too, is followed by a wait of exactly [400 * 2^i] ms, with
    no jitter and no floor. *)
Theorem C3_waits_between_attempts :
  (forall mx b j w,
      let r := Part000.fetchWithRetry_tuned mx b j w in
      let n := (fetches (snd r) - fetches w)%nat in
      (1 <= n <= mx + 1)%nat /\
      slept (snd r) =
        (slept w ++ jittered b j (rnd w) (draws w) 0 (n - 1))%list) /\
  (forall i r,
      let base := Part000.backoff_base Part000.BASE_DELAY_MS i in
      let u := (2 * rv r - 1)%Q in
      let d := Part000.backoff_delay Part000.BASE_DELAY_MS Part000.JITTER i r in
      (base == 400 * inject_Z (2 ^ Z.of_nat i))%Q /\
      (-1 <= u)%Q /\ (u < 1)%Q /\
      (d == Qmax 100 (base + base * Part000.JITTER * u))%Q /\
      (100 <= d)%Q /\
      (Qmax 100 (base * (1 - Part000.JITTER)) <= d)%Q /\
      (d <= Qmax 100 (base * (1 + Part000.JITTER)))%Q) /\
  (forall w,
      let r := AppJs.fetchWithRetry w in
      let n := (fetches (snd r) - fetches w)%nat in
      let failed := match fst r with Some _ => (n - 1)%nat | None => n end in
      (1 <= n <= 3)%nat /\
      slept (snd r) = (slept w ++ doubling 400 failed)%list).
Proof.
  split; [|split].
  - intros mx b j w. cbv zeta. unfold Part000.fetchWithRetry_tuned.
    rewrite Part000_retry_loop_eq by lia. cbv zeta. rewrite Nat.sub_0_r.
    pose proof (leading_failures_le Part000.try_text (net w) (fetches w)
                  (S mx)) as Hle.
    destruct (_ <? S mx)%nat eqn:E; cbn [fst snd fetches slept].
    + apply Nat.ltb_lt in E.
      replace (fetches w + S _ - fetches w)%nat
        with (S (leading_failures Part000.try_text (net w) (fetches w) (S mx)))
        by lia.
      cbn [Nat.sub]. rewrite Nat.sub_0_r. split; [lia|done].
    + replace (fetches w + S mx - fetches w)%nat with (S mx) by lia.
      split; [lia|done].
  - intros i r. cbv zeta.
    split; [reflexivity|].
    apply backoff_delay_spec; unfold Part000.BASE_DELAY_MS, Part000.JITTER; lra.
  - intros w. cbv zeta. unfold AppJs.fetchWithRetry.
    rewrite AppJs_retry_loop_eq by lia. cbv zeta. rewrite Nat.sub_0_r.
    pose proof (leading_failures_le AppJs.try_text (net w) (fetches w) 3)
      as Hle.
    destruct (_ <? 3)%nat eqn:E; cbn [fst snd fetches slept].
    + apply Nat.ltb_lt in E.
      destruct (leading_failures_hit AppJs.try_text (net w) (fetches w) 3 E)
        as [t Ht].
      rewrite Ht.
      replace (fetches w + S _ - fetches w - 1)%nat
        with (leading_failures AppJs.try_text (net w) (fetches w) 3) by lia.
      split; [lia|done].
    + apply Nat.ltb_ge in E.
      replace (fetches w + 3 - fetches w)%nat with 3%nat by lia.
      assert (leading_failures AppJs.try_text (net w) (fetches w) 3 = 3%nat)
        as -> by lia.
      split; [lia|done].
Qed.

(** ** C8: the first success ends the call *)

Lemma AppJs_try_text_str s :
  s <> "" -> AppJs.try_text (Body (VStr s)) = Some (toLowerCase s).
Proof.
  intros Hs. simpl. apply String.eqb_neq in Hs. by rewrite Hs.
Qed.

Lemma Part000_try_text_str s :
  s <> "" -> Part000.try_text (Body (VStr s)) = Some s.
Proof.
  intros Hs. simpl. apply String.eqb_neq in Hs. by rewrite Hs.
Qed.

(** C8, as stated, at the first version: the text of a successful first
    attempt comes back as received, capital letter included, not
    lowercased. *)
Lemma C8_counterexample :
  net honey (fetches honey) = Body (VStr "Honey never spoils.") /\
  fst (Part000.fetchWithRetry honey) = Some "Honey never spoils." /\
  ~ (fst (Part000.fetchWithRetry honey) =
     Some (toLowerCase "Honey never spoils.")).
Proof. repeat split. vm_compute. discriminate. Qed.

(** C8, amended: when the attempts before the [k]-th fail and the [k]-th
    answers with a non-empty string [s], the call returns at once, having
    made [k + 1] requests: [src/App.js] and the second version return [s]
    lowercased, the first version returns [s] as received. *)
Theorem C8_first_success_returns :
  (forall w k s,
      (k < 3)%nat ->
      (forall i, (i < k)%nat ->
                 AppJs.try_text (net w (fetches w + i)%nat) = None) ->
      net w (fetches w + k)%nat = Body (VStr s) ->
      s <> "" ->
      fst (AppJs.fetchWithRetry w) = Some (toLowerCase s) /\
      fetches (snd (AppJs.fetchWithRetry w)) = (fetches w + k + 1)%nat /\
      Part001.fetchWithRetry w = AppJs.fetchWithRetry w) /\
  (forall mx b j w k s,
      (k <= mx)%nat ->
      (forall i, (i < k)%nat ->
                 Part000.try_text (net w (fetches w + i)%nat) = None) ->
      net w (fetches w + k)%nat = Body (VStr s) ->
      s <> "" ->
      fst (Part000.fetchWithRetry_tuned mx b j w) = Some s /\
      fetches (snd (Part000.fetchWithRetry_tuned mx b j w)) =
        (fetches w + k + 1)%nat).
Proof.
  split.
  - intros w k s Hk Hfail Hnet Hs.
    pose proof (AppJs_try_text_str s Hs) as Ht. rewrite <- Hnet in Ht.
    unfold Part001.fetchWithRetry, AppJs.fetchWithRetry.
    rewrite AppJs_retry_loop_eq by lia. cbv zeta. rewrite Nat.sub_0_r.
    rewrite (leading_failures_first _ _ _ 3 k _ Hk Hfail Ht).
    apply Nat.ltb_lt in Hk. rewrite Hk. cbn [fst snd fetches].
    split; [done|]. split; [lia|done].
  - intros mx b j w k s Hk Hfail Hnet Hs.
    pose proof (Part000_try_text_str s Hs) as Ht. rewrite <- Hnet in Ht.
    unfold Part000.fetchWithRetry_tuned.
    rewrite Part000_retry_loop_eq by lia. cbv zeta. rewrite Nat.sub_0_r.
    assert (k < S mx)%nat as Hk' by lia.
    rewrite (leading_failures_first _ _ _ (S mx) k _ Hk' Hfail Ht).
    apply Nat.ltb_lt in Hk'. rewrite Hk'. cbn [fst snd fetches].
    split; [done|lia].
Qed.

Lemma C8_witness :
  (fst (AppJs.fetchWithRetry flaky) = Some "sharks existed before trees." /\
   fetches (snd (AppJs.fetchWithRetry flaky)) = 2%nat) /\
  (fst (Part000.fetchWithRetry flaky) = Some "Sharks Existed Before Trees." /\
   fetches (snd (Part000.fetchWithRetry flaky)) = 2%nat).
Proof.
  destruct C8_first_success_returns as [Hnew Hold]. split.
  - destruct (Hnew flaky 1%nat "Sharks Existed Before Trees.")
      as (H1 & H2 & _).
    + lia.
    + intros i Hi. assert (i = 0)%nat as -> by lia. reflexivity.
    + reflexivity.
    + discriminate.
    + exact (conj H1 H2).
  - destruct (Hold Part000.MAX_RETRIES Part000.BASE_DELAY_MS Part000.JITTER
                flaky 1%nat "Sharks Existed Before Trees.") as (H1 & H2).
    + unfold Part000.MAX_RETRIES. lia.
    + intros i Hi. assert (i = 0)%nat as -> by lia. reflexivity.
    + reflexivity.
    + discriminate.
    + exact (conj H1 H2).
Defined.

(** ** The cells under refill, consume and publish *)

Lemma same_limiter_refl a : same_limiter a a.
Proof. by repeat split. Qed.

Lemma same_limiter_trans a b c :
  same_limiter a b -> same_limiter b c -> same_limiter a c.
Proof.
  intros (?&?&?&?) (?&?&?&?). repeat split; congruence.
Qed.

Lemma cache_step_refl a : cache_step a a.
Proof. split; [done|]. split; [done|apply same_limiter_refl]. Qed.

Lemma cache_step_trans a b c :
  cache_step a b -> cache_step b c -> cache_step a c.
Proof.
  intros (H1 & H2 & H3) (H4 & H5 & H6). split; [auto|].
  split; [set_solver|by eapply same_limiter_trans].
Qed.

Lemma falsy_false_nonempty t : falsy (Some t) = false -> t <> "".
Proof. simpl. intros H. by apply String.eqb_neq. Qed.

Lemma offer_step f a : f <> "" -> cache_step a (offer f a).
Proof.
  intros Hf. unfold offer. destruct (decide (f ∈ seenRef a)) as [Hin|Hnew].
  - apply cache_step_refl.
  - split; [|split; [simpl; set_solver|by repeat split]].
    intros (Hnd & Hseen & Hne). repeat split; simpl.
    + apply NoDup_app. split; [done|]. split; [|apply NoDup_singleton].
      intros x Hx Hx'. apply list_elem_of_singleton in Hx' as ->.
      apply Hnew. by apply Hseen.
    + intros x Hx. apply elem_of_app in Hx as [Hx|Hx].
      * apply Hseen in Hx. set_solver.
      * apply list_elem_of_singleton in Hx as ->. set_solver.
    + intros x Hx. apply elem_of_app in Hx as [Hx|Hx]; [by apply Hne|].
      by apply list_elem_of_singleton in Hx as ->.
Qed.

Lemma primeCache_resume_step f a a' :
  primeCache_resume f a = Some a' -> cache_step a a'.
Proof.
  unfold primeCache_resume. destruct f as [t|]; [|done].
  destruct (falsy (Some t)) eqn:E; [done|]. intros [= <-].
  apply offer_step. by apply falsy_false_nonempty.
Qed.

Lemma primeCache_loop_step fw tg fuel a w :
  cache_step a (snd (fst (primeCache_loop fw tg fuel a w))).
Proof.
  revert a w. induction fuel as [|fuel IH]; intros a w; simpl.
  - destruct (length (cacheRef a) <? tg)%nat; apply cache_step_refl.
  - destruct (length (cacheRef a) <? tg)%nat; simpl; [|apply cache_step_refl].
    unfold bind. destruct (fw w) as [f w1].
    destruct (primeCache_resume f a) as [a1|] eqn:E; [|apply cache_step_refl].
    eapply cache_step_trans; [by eapply primeCache_resume_step|apply IH].
Qed.

Lemma shift_step a : cache_step a (snd (shift a)).
Proof.
  unfold shift. destruct (cacheRef a) as [|h rest] eqn:E;
    [apply cache_step_refl|].
  split; [|split; [done|by repeat split]].
  intros (Hnd & Hseen & Hne). rewrite E in *. repeat split; simpl.
  - by apply NoDup_cons in Hnd as [_ ?].
  - intros x Hx. apply Hseen. apply elem_of_cons. by right.
  - intros x Hx. apply Hne. apply elem_of_cons. by right.
Qed.

(** [publish] writes [fact], [busy] and [refills] only. *)
Lemma publish_cells fb fc f a w :
  let a' := cells (fst (publish fb fc f a w)) in
  cacheRef a' = cacheRef a /\ seenRef a' = seenRef a /\ same_limiter a a' /\
  busy a' = false.
Proof.
  unfold publish, bind.
  destruct (falsy f); [unfold pickFallback, bind, Math_random, ret; simpl|
                       unfold ret; simpl].
  - destruct (if (fallback_index fb _ <? 0)%Z then _ else _);
      simpl; by repeat split.
  - destruct f; simpl; by repeat split.
Qed.

Lemma publish_step fb fc f a w :
  cache_step a (cells (fst (publish fb fc f a w))).
Proof.
  destruct (publish_cells fb fc f a w) as (Hc & Hs & Hl & _).
  split; [|split; [by rewrite Hs|done]].
  unfold cache_ok. by rewrite Hc, Hs.
Qed.

Lemma getNextFact_step fw fb fc a w :
  cache_step a (cells (fst (getNextFact fw fb fc a w))).
Proof.
  unfold getNextFact.
  pose proof (shift_step (set_busy true a)) as Hshift.
  destruct (shift (set_busy true a)) as [f0 a0]. simpl in Hshift.
  assert (cache_step a a0) as Ha0.
  { eapply cache_step_trans; [|exact Hshift]. split; [done|].
    split; [done|by repeat split]. }
  unfold bind at 1.
  destruct ((if falsy f0 then fw else ret f0) w) as [f1 w1].
  eapply cache_step_trans; [exact Ha0|apply publish_step].
Qed.

(** ** What every version's retry policy guarantees its callers *)

Lemma toLowerCase_nonempty s : s <> "" -> toLowerCase s <> "".
Proof. by destruct s. Qed.

Lemma try_text_of_nonempty v r t : try_text_of v r = Some t -> t <> "".
Proof.
  destruct r as [|[| |b|z|s|]]; try by destruct v.
  destruct v; simpl; destruct (String.eqb s "") eqn:E; simpl; try done;
    apply String.eqb_neq in E; intros [= <-]; try done;
    by apply toLowerCase_nonempty.
Qed.

Lemma fetchWithRetry_of_eq v w :
  let n := match v with First => 4%nat | _ => 3%nat end in
  let k := leading_failures (try_text_of v) (net w) (fetches w) n in
  fst (fetchWithRetry_of v w) =
    (if (k <? n)%nat then try_text_of v (net w (fetches w + k)%nat)
     else None) /\
  fetches (snd (fetchWithRetry_of v w)) =
    (fetches w + (if (k <? n)%nat then S k else n))%nat /\
  net (snd (fetchWithRetry_of v w)) = net w /\
  rnd (snd (fetchWithRetry_of v w)) = rnd w /\
  clock (snd (fetchWithRetry_of v w)) = clock w /\
  reads (snd (fetchWithRetry_of v w)) = reads w.
Proof.
  destruct v; cbv zeta; cbn [fetchWithRetry_of try_text_of].
  - unfold Part000.fetchWithRetry, Part000.fetchWithRetry_tuned.
    rewrite Part000_retry_loop_eq by (unfold Part000.MAX_RETRIES; lia).
    cbv zeta. change (S Part000.MAX_RETRIES - 0)%nat with 4%nat.
    destruct (_ <? 4)%nat; by repeat split.
  - unfold Part001.fetchWithRetry, AppJs.fetchWithRetry.
    rewrite AppJs_retry_loop_eq by lia. cbv zeta.
    change (3 - 0)%nat with 3%nat. by repeat split.
  - unfold AppJs.fetchWithRetry.
    rewrite AppJs_retry_loop_eq by lia. cbv zeta.
    change (3 - 0)%nat with 3%nat. by repeat split.
Qed.

Lemma fetchWithRetry_of_truthy v w :
  falsy (fst (fetchWithRetry_of v w)) = false \/
  fst (fetchWithRetry_of v w) = None.
Proof.
  destruct (fetchWithRetry_of_eq v w) as (Hr & _). cbv zeta in Hr.
  destruct (fst (fetchWithRetry_of v w)) as [t|] eqn:E; [left|by right].
  destruct (_ <? _)%nat; [|done]. symmetry in Hr.
  apply try_text_of_nonempty in Hr. simpl. by apply String.eqb_neq.
Qed.

Lemma fetchWithRetry_of_progress v w :
  (fetches w < fetches (snd (fetchWithRetry_of v w)))%nat.
Proof.
  destruct (fetchWithRetry_of_eq v w) as (_ & Hf & _). cbv zeta in Hf.
  rewrite Hf. destruct (_ <? _)%nat; destruct v; lia.
Qed.

Lemma fetchWithRetry_of_dead v w :
  (forall i, (fetches w <= i)%nat -> try_text_of v (net w i) = None) ->
  fst (fetchWithRetry_of v w) = None.
Proof.
  intros Hdead. destruct (fetchWithRetry_of_eq v w) as (Hr & _).
  cbv zeta in Hr. rewrite Hr.
  rewrite leading_failures_all by (intros i _; apply Hdead; lia).
  by rewrite Nat.ltb_irrefl.
Qed.

(** ** C6: one run of the refill loop *)

Lemma primeCache_of_S v fuel a w :
  (length (cacheRef a) < target_of v)%nat ->
  primeCache_of v (S fuel) a w =
  match primeCache_resume (fst (fetchWithRetry_of v w)) a with
  | Some a' => primeCache_of v fuel a' (snd (fetchWithRetry_of v w))
  | None => (Finished, a, snd (fetchWithRetry_of v w))
  end.
Proof.
  intros Hlen. unfold primeCache_of. cbn [primeCache_loop].
  apply Nat.ltb_lt in Hlen. rewrite Hlen. cbn [negb]. unfold bind.
  destruct (fetchWithRetry_of v w) as [f w1]. cbn [fst snd].
  by destruct (primeCache_resume f a).
Qed.

Lemma primeCache_of_full v fuel a w :
  (target_of v <= length (cacheRef a))%nat ->
  primeCache_of v fuel a w = (Finished, a, w).
Proof.
  intros Hlen. apply Nat.ltb_ge in Hlen. unfold primeCache_of.
  destruct fuel; cbn [primeCache_loop]; by rewrite Hlen.
Qed.

Lemma primeCache_of_finished v fuel a w :
  fst (fst (primeCache_of v fuel a w)) = Finished ->
  (target_of v <= length (cacheRef (snd (fst (primeCache_of v fuel a w)))))%nat
  \/ exists w0, fst (fetchWithRetry_of v w0) = None /\
                snd (fetchWithRetry_of v w0) = snd (primeCache_of v fuel a w).
Proof.
  revert a w. induction fuel as [|fuel IH]; intros a w.
  - unfold primeCache_of. cbn [primeCache_loop].
    destruct (length (cacheRef a) <? target_of v)%nat eqn:E; cbn; [done|].
    intros _. left. by apply Nat.ltb_ge.
  - destruct (Nat.lt_ge_cases (length (cacheRef a)) (target_of v))
      as [Hlt|Hge].
    + rewrite primeCache_of_S by done.
      destruct (fetchWithRetry_of_truthy v w) as [Ht|Hn].
      * destruct (fst (fetchWithRetry_of v w)) as [t|] eqn:Ef; [|done].
        unfold primeCache_resume. rewrite Ht. apply IH.
      * rewrite Hn. cbn. intros _. right. by exists w.
    + rewrite primeCache_of_full by done. cbn. by left.
Qed.

Lemma primeCache_of_dead v fuel a w N :
  (forall i, (N <= i)%nat -> try_text_of v (net w i) = None) ->
  (N - fetches w < fuel)%nat ->
  fst (fst (primeCache_of v fuel a w)) = Finished.
Proof.
  revert a w. induction fuel as [|fuel IH]; intros a w Hdead Hfuel; [lia|].
  destruct (Nat.lt_ge_cases (length (cacheRef a)) (target_of v)) as [Hlt|Hge].
  - rewrite primeCache_of_S by done.
    destruct (fetchWithRetry_of_eq v w) as (_ & _ & Hnet & _).
    pose proof (fetchWithRetry_of_progress v w) as Hprog.
    destruct (primeCache_resume _ a) as [a'|] eqn:Er; [|done].
    destruct (decide (N <= fetches w)%nat) as [Hpast|Hbefore].
    + rewrite fetchWithRetry_of_dead in Er; [done|].
      intros i Hi. apply Hdead. lia.
    + apply IH; [by rewrite Hnet|lia].
  - by rewrite primeCache_of_full.
Qed.

(** C6: the refill loop of every version.  With the target size (4)
    reached it ends without a request.  Below it, it calls
    [fetchWithRetry]: on [null] it ends at once with the cells untouched; a
    text not in the seen-set is appended to the queue and added to the
    seen-set; a text already seen is dropped, the cells stay as they were
    (so the queue is no nearer the target), and in both cases the loop goes
    on with the next call.  A run that ended did so at the target size or on
    a [null], and against a backend that is dead from some request on the
    run does end. *)
Theorem C6_primeCache_refill (v : version) (fuel : nat) (a : App) (w : World) :
  let fetched := fst (fetchWithRetry_of v w) in
  let w1 := snd (fetchWithRetry_of v w) in
  target_of v = 4%nat /\
  ((target_of v <= length (cacheRef a))%nat ->
     primeCache_of v fuel a w = (Finished, a, w)) /\
  ((length (cacheRef a) < target_of v)%nat -> fetched = None ->
     primeCache_of v (S fuel) a w = (Finished, a, w1)) /\
  (forall t, (length (cacheRef a) < target_of v)%nat -> fetched = Some t ->
     t ∉ seenRef a ->
     primeCache_of v (S fuel) a w =
     primeCache_of v fuel
       (set_seenRef ({[ t ]} ∪ seenRef a)
          (set_cacheRef (cacheRef a ++ [t])%list a)) w1) /\
  (forall t, (length (cacheRef a) < target_of v)%nat -> fetched = Some t ->
     t ∈ seenRef a ->
     primeCache_of v (S fuel) a w = primeCache_of v fuel a w1) /\
  (fst (fst (primeCache_of v fuel a w)) = Finished ->
     (target_of v <=
        length (cacheRef (snd (fst (primeCache_of v fuel a w)))))%nat \/
     exists w0, fst (fetchWithRetry_of v w0) = None /\
                snd (fetchWithRetry_of v w0) =
                  snd (primeCache_of v fuel a w)) /\
  (forall N, (forall i, (N <= i)%nat -> try_text_of v (net w i) = None) ->
     (N - fetches w < fuel)%nat ->
     fst (fst (primeCache_of v fuel a w)) = Finished) /\
  AppJs.primeCache = primeCache_of Current /\
  Part001.primeCache = primeCache_of Second /\
  Part000.primeCache = primeCache_of First.
Proof.
  cbv zeta.
  split; [by destruct v|].
  split; [apply primeCache_of_full|].
  split.
  { intros Hlen Hnull. rewrite primeCache_of_S by done. by rewrite Hnull. }
  split.
  { intros t Hlen Ht Hnew. rewrite primeCache_of_S by done.
    destruct (fetchWithRetry_of_truthy v w) as [Hty|Hn]; [|congruence].
    unfold primeCache_resume. rewrite Ht in *. rewrite Hty.
    unfold offer. by rewrite decide_False. }
  split.
  { intros t Hlen Ht Hdup. rewrite primeCache_of_S by done.
    destruct (fetchWithRetry_of_truthy v w) as [Hty|Hn]; [|congruence].
    unfold primeCache_resume. rewrite Ht in *. rewrite Hty.
    unfold offer. by rewrite decide_True. }
  split; [apply primeCache_of_finished|].
  split; [intros N; apply primeCache_of_dead|].
  done.
Qed.

(** Against a backend that always answers with the same text the first
    round enqueues it, the second drops it; against a dead backend the loop
    ends after one call. *)
Lemma C6_witness :
  let t := "honey never spoils." in
  let w1 := snd (AppJs.fetchWithRetry honey) in
  let a1 := set_seenRef ({[ t ]} ∪ ∅) (set_cacheRef [t] AppJs.init) in
  primeCache_of Current 2 AppJs.init honey = primeCache_of Current 1 a1 w1 /\
  primeCache_of Current 1 a1 w1 =
    primeCache_of Current 0 a1 (snd (AppJs.fetchWithRetry w1)) /\
  primeCache_of Current 1 AppJs.init offline =
    (Finished, AppJs.init, snd (AppJs.fetchWithRetry offline)) /\
  fst (fst (primeCache_of Current 1 AppJs.init offline)) = Finished.
Proof.
  intros t w1 a1.
  destruct (C6_primeCache_refill Current 1 AppJs.init honey)
    as (_ & _ & _ & Hfresh & _).
  destruct (C6_primeCache_refill Current 0 a1 w1)
    as (_ & _ & _ & _ & Hdup & _).
  destruct (C6_primeCache_refill Current 0 AppJs.init offline)
    as (_ & _ & Hnull & _).
  destruct (C6_primeCache_refill Current 1 AppJs.init offline)
    as (_ & _ & _ & _ & _ & _ & Hdead & _).
  split; [|split; [|split]].
  - apply (Hfresh t); [simpl; lia|reflexivity|set_solver].
  - apply (Hdup t); [simpl; lia|reflexivity|].
    simpl. set_solver.
  - apply Hnull; [simpl; lia|reflexivity].
  - apply (Hdead 0%nat); [intros i _; reflexivity|simpl; lia].
Defined.

(** ** [getNextFact], step by step *)

Lemma publish_text fb fc t a w :
  t <> "" ->
  publish fb fc (Some t) a w =
  (Resolved (set_busy false (fire_primeCache (set_fact t a))), w).
Proof.
  intros Ht. unfold publish, bind. simpl.
  apply String.eqb_neq in Ht. by rewrite Ht.
Qed.

Lemma fallback_index_range fb (r : rand01) :
  fb <> [] ->
  0 <= fallback_index fb r < Z.of_nat (length fb) /\
  (inject_Z (fallback_index fb r) <=
     rv r * inject_Z (Z.of_nat (length fb)))%Q /\
  (rv r * inject_Z (Z.of_nat (length fb)) <
     inject_Z (fallback_index fb r) + 1)%Q.
Proof.
  intros Hfb. unfold fallback_index.
  destruct (rv_bounds r) as [H0 H1].
  set (len := inject_Z (Z.of_nat (length fb))).
  assert (0 < len)%Q as Hlen.
  { unfold len. change 0%Q with (inject_Z 0). rewrite <- Zlt_Qlt.
    destruct fb; [done|]. simpl. lia. }
  assert (0 <= rv r * len)%Q as Hlo
    by (apply Qmult_le_0_compat; [done|by apply Qlt_le_weak]).
  assert (rv r * len < len)%Q as Hhi.
  { rewrite <- (Qmult_1_l len) at 2. by apply Qmult_lt_compat_r. }
  pose proof (Qfloor_le (rv r * len)) as Hfl.
  pose proof (Qlt_floor (rv r * len)) as Hfu.
  split; [split|split].
  - change 0 with (Qfloor 0). by apply Qfloor_resp_le.
  - rewrite Zlt_Qlt. fold len. eapply Qle_lt_trans; [exact Hfl|exact Hhi].
  - exact Hfl.
  - rewrite inject_Z_plus in Hfu. exact Hfu.
Qed.

Lemma publish_fallback fb fc f a w :
  fb <> [] -> falsy f = true ->
  let r := rnd w (draws w) in
  let i := Z.to_nat (fallback_index fb r) in
  exists e,
    nth_error fb i = Some e /\ (i < length fb)%nat /\
    fst (publish fb fc f a w) =
      Resolved (set_busy false (fire_primeCache (set_fact (fc e) a))) /\
    fetches (snd (publish fb fc f a w)) = fetches w /\
    slept (snd (publish fb fc f a w)) = slept w.
Proof.
  intros Hfb Hf r i.
  destruct (fallback_index_range fb r Hfb) as ((Hi0 & Hi1) & _).
  assert (i < length fb)%nat as Hi by (unfold i; lia).
  destruct (nth_error fb i) as [e|] eqn:En;
    [|apply nth_error_None in En; lia].
  exists e. split; [done|]. split; [done|].
  unfold publish, pickFallback, bind, Math_random, ret. rewrite Hf.
  cbn beta. fold r. destruct (fallback_index fb r <? 0)%Z eqn:Eneg;
    [apply Z.ltb_lt in Eneg; lia|].
  fold i. rewrite En. done.
Qed.

Lemma FALLBACK_of_entries v i e :
  nth_error (FALLBACK_of v) i = Some e -> fallback_case_of v e <> "".
Proof.
  destruct v; do 5 (destruct i as [|i]; [intros [= <-]; discriminate|]);
    by destruct i.
Qed.

Lemma FALLBACK_of_nonempty v : FALLBACK_of v <> [].
Proof. by destruct v. Qed.

(** ** C7: a queued fact is shown without touching the network *)

(** C7: with a fact at the head of the queue, [getNextFact] (every
    version's) publishes exactly that oldest entry and removes it from the
    queue; the world is left as it was (no request, no wait, no random
    draw), and one background refill is fired. *)
Theorem C7_cached_fact_needs_no_network
    (v : version) (a : App) (w : World) (h : string) (rest : list string) :
  cacheRef a = h :: rest -> h <> "" ->
  exists a',
    getNextFact_of v a w = (Resolved a', w) /\
    fact a' = h /\ cacheRef a' = rest /\ busy a' = false /\
    refills a' = S (refills a) /\ seenRef a' = seenRef a /\
    tapsRef a' = tapsRef a.
Proof.
  intros Hc Hh. unfold getNextFact_of, getNextFact, shift.
  cbn [cacheRef set_busy]. rewrite Hc. unfold bind at 1.
  assert (falsy (Some h) = false) as ->
    by (simpl; by apply String.eqb_neq).
  unfold ret at 1. rewrite publish_text by done.
  eexists. split; [reflexivity|]. by repeat split.
Qed.

Lemma C7_witness :
  exists a',
    AppJs.getNextFact two_cached offline = (Resolved a', offline) /\
    fact a' = "fact-a" /\ cacheRef a' = ["fact-b"] /\ busy a' = false /\
    refills a' = 1%nat /\ seenRef a' = seenRef two_cached /\
    tapsRef a' = tapsRef two_cached.
Proof.
  apply (C7_cached_fact_needs_no_network Current two_cached offline
           "fact-a" ["fact-b"]).
  - reflexivity.
  - discriminate.
Defined.

(** ** C1: [getNextFact] always publishes *)

(** C1: whatever the network does, [getNextFact] (every version's) resolves
    and publishes a non-empty text, never rejecting: the head of the queue
    when there is one; otherwise what a direct [fetchWithRetry] returned,
    when that is not [null]; otherwise the entry of [FALLBACK] (five
    entries) at index [floor (random * 5)], every index owning one fifth of
    the unit interval.  The queue is taken to hold no empty text, which is
    all a refill ever enqueues. *)
Theorem C1_getNextFact_always_publishes
    (v : version) (a : App) (w : World) :
  (forall f, f ∈ cacheRef a -> f <> "") ->
  exists a',
    fst (getNextFact_of v a w) = Resolved a' /\
    busy a' = false /\ fact a' <> "" /\
    length (FALLBACK_of v) = 5%nat /\
    match cacheRef a with
    | h :: rest => fact a' = h
    | [] =>
        let w1 := snd (fetchWithRetry_of v w) in
        match fst (fetchWithRetry_of v w) with
        | Some t => fact a' = t
        | None =>
            let r := rnd w1 (draws w1) in
            exists i e,
              (inject_Z (Z.of_nat i) <= rv r * 5)%Q /\
              (rv r * 5 < inject_Z (Z.of_nat i) + 1)%Q /\
              nth_error (FALLBACK_of v) i = Some e /\
              fact a' = fallback_case_of v e
        end
    end.
Proof.
  intros Hne.
  assert (length (FALLBACK_of v) = 5%nat) as Hlen by (by destruct v).
  unfold getNextFact_of, getNextFact, shift. cbn [cacheRef set_busy].
  destruct (cacheRef a) as [|h rest] eqn:Hc.
  - unfold bind at 1. cbn [falsy].
    destruct (fetchWithRetry_of_truthy v w) as [Hty|Hnull].
    + destruct (fetchWithRetry_of v w) as [[t|] w1] eqn:Ef; [|done].
      cbn [fst snd] in *. pose proof (falsy_false_nonempty t Hty) as Ht.
      rewrite publish_text by done. eexists. cbn [fst].
      split; [reflexivity|]. by repeat split.
    + destruct (fetchWithRetry_of v w) as [f w1] eqn:Ef.
      cbn [fst snd] in *. subst f.
      destruct (publish_fallback (FALLBACK_of v) (fallback_case_of v) None
                  (set_busy true a) w1 (FALLBACK_of_nonempty v) eq_refl)
        as (e & Hnth & Hi & Hres & _).
      rewrite Hres. eexists. split; [reflexivity|].
      split; [done|]. split; [by eapply FALLBACK_of_entries|].
      split; [done|]. cbv zeta.
      destruct (fallback_index_range (FALLBACK_of v) (rnd w1 (draws w1))
                  (FALLBACK_of_nonempty v)) as ((Hi0 & _) & Hlo & Hhi).
      rewrite Hlen in Hlo, Hhi.
      eexists _, e. rewrite Z2Nat.id by done.
      split; [exact Hlo|]. split; [exact Hhi|]. by split.
  - assert (h <> "") as Hh by (apply Hne; apply elem_of_cons; by left).
    unfold bind at 1.
    assert (falsy (Some h) = false) as ->
      by (simpl; by apply String.eqb_neq).
    unfold ret at 1. rewrite publish_text by done.
    eexists. cbn [fst]. split; [reflexivity|]. by repeat split.
Qed.

Lemma C1_witness :
  exists a',
    fst (getNextFact_of Current AppJs.init offline) = Resolved a' /\
    busy a' = false /\ fact a' <> "" /\
    length (FALLBACK_of Current) = 5%nat /\
    exists i e,
      (inject_Z (Z.of_nat i) <= rv half * 5)%Q /\
      (rv half * 5 < inject_Z (Z.of_nat i) + 1)%Q /\
      nth_error (FALLBACK_of Current) i = Some e /\
      fact a' = fallback_case_of Current e.
Proof.
  apply (C1_getNextFact_always_publishes Current AppJs.init offline).
  intros f Hf. simpl in Hf. by apply elem_of_nil in Hf.
Defined.

(** ** The module definitions are the versions' instances *)

Lemma versions_agree :
  AppJs.getNextFact = getNextFact_of Current /\
  Part001.nextFact = getNextFact_of Second /\
  Part000.getNextFact = getNextFact_of First /\
  AppJs.primeCache = primeCache_of Current /\
  Part001.primeCache = primeCache_of Second /\
  Part000.primeCache = primeCache_of First.
Proof. by repeat split. Qed.

(** ** The limiter's turns leave the cache side alone *)

Lemma same_cache_step a a' :
  same_cache a a' -> (cache_ok a -> cache_ok a') /\ seenRef a ⊆ seenRef a'.
Proof.
  intros [Hc Hs]. unfold cache_ok. rewrite Hc, Hs. done.
Qed.

Lemma canTap_same_cache a w : same_cache a (snd (fst (AppJs.canTap a w))).
Proof.
  unfold AppJs.canTap, bind, Date_now. cbn [tapsRef set_tapsRef].
  destruct (_ <=? _)%nat; by split.
Qed.

Lemma canTap_taps a w :
  let now := clock w (reads w) in
  let kept := filter (fun t => now - t < AppJs.WINDOW_MS) (tapsRef a) in
  (fst (fst (AppJs.canTap a w)) = false /\
   tapsRef (snd (fst (AppJs.canTap a w))) = kept /\
   (AppJs.MAX_PER_MINUTE <= length kept)%nat) \/
  (fst (fst (AppJs.canTap a w)) = true /\
   tapsRef (snd (fst (AppJs.canTap a w))) = (kept ++ [now])%list /\
   (length kept < AppJs.MAX_PER_MINUTE)%nat).
Proof.
  intros now kept. unfold AppJs.canTap, bind, Date_now.
  cbn [tapsRef set_tapsRef]. fold now. fold kept.
  destruct (AppJs.MAX_PER_MINUTE <=? length kept)%nat eqn:E.
  - left. apply Nat.leb_le in E. by repeat split.
  - right. apply Nat.leb_gt in E. by repeat split.
Qed.

Lemma still_limited_world a w :
  snd (AppJs.still_limited a w) = w \/
  exists r, snd (AppJs.still_limited a w) =
            mkWorld (net w) (fetches w) (rnd w) (draws w) (clock w) r
                    (slept w) (warnings w).
Proof.
  unfold AppJs.still_limited. destruct (limitUntil a) as [l|]; [|by left].
  destruct (AppJs.num_truthy l); [|by left]. right. by eexists.
Qed.

Lemma getNextFact_cells fw fb fc a w :
  let a' := cells (fst (getNextFact fw fb fc a w)) in
  seenRef a' = seenRef a /\ cacheRef a' = tail (cacheRef a) /\
  same_limiter a a' /\ busy a' = false.
Proof.
  unfold getNextFact, shift. cbn [cacheRef set_busy].
  destruct (cacheRef a) as [|h rest] eqn:Hc; unfold bind.
  - destruct ((if falsy None then fw else ret None) w) as [f1 w1].
    destruct (publish_cells fb fc f1 (set_busy true a) w1)
      as (H1 & H2 & H3 & H4).
    cbv zeta. rewrite H1, H2, H4. simpl. rewrite Hc.
    split; [done|]. split; [done|]. split; [exact H3|done].
  - destruct ((if falsy (Some h) then fw else ret (Some h)) w) as [f1 w1].
    destruct (publish_cells fb fc f1
                (set_cacheRef rest (set_busy true a)) w1)
      as (H1 & H2 & H3 & H4).
    cbv zeta. rewrite H1, H2, H4.
    split; [done|]. split; [done|]. split; [exact H3|done].
Qed.

Lemma initialLoad_cells a w :
  let a' := cells (fst (AppJs.initialLoad a w)) in
  same_cache a a' /\ same_limiter a a' /\ busy a' = false.
Proof.
  unfold AppJs.initialLoad, bind.
  destruct (AppJs.fetchWithRetry w) as [f w1].
  destruct (publish_cells AppJs.FALLBACK toLowerCase f (set_busy true a) w1)
    as (H1 & H2 & H3 & H4).
  cbv zeta. split; [by split|]. split; [exact H3|done].
Qed.

Lemma handlePress_seen a w :
  seenRef (fst (AppJs.handlePress a w)) = seenRef a.
Proof.
  unfold AppJs.handlePress. destruct (busy a); [done|].
  unfold bind at 1. destruct (AppJs.still_limited a w) as [blocked w1].
  destruct blocked; [done|]. unfold bind at 1.
  pose proof (canTap_same_cache a w1) as [_ Hs].
  destruct (AppJs.canTap a w1) as [[ok a1] w2]. cbn [fst snd] in *.
  destruct ok; [|done]. unfold bind, ret.
  pose proof (getNextFact_cells AppJs.fetchWithRetry AppJs.FALLBACK
                toLowerCase a1 w2) as (Hs' & _).
  unfold AppJs.getNextFact.
  destruct (getNextFact _ _ _ a1 w2) as [s w3]. cbn [fst snd] in *.
  congruence.
Qed.

Lemma handlePress_cache_ok a w :
  cache_ok a -> cache_ok (fst (AppJs.handlePress a w)).
Proof.
  intros Hok. unfold AppJs.handlePress. destruct (busy a); [done|].
  unfold bind at 1. destruct (AppJs.still_limited a w) as [blocked w1].
  destruct blocked; [done|]. unfold bind at 1.
  pose proof (canTap_same_cache a w1) as Hsame.
  apply same_cache_step in Hsame as [Hok1 _].
  destruct (AppJs.canTap a w1) as [[ok a1] w2]. cbn [fst snd] in *.
  destruct ok; [|by apply Hok1]. unfold bind, ret.
  pose proof (getNextFact_step AppJs.fetchWithRetry AppJs.FALLBACK
                toLowerCase a1 w2) as (Hok2 & _).
  unfold AppJs.getNextFact.
  destruct (getNextFact _ _ _ a1 w2) as [s w3]. cbn [fst snd] in *.
  auto.
Qed.

Lemma countdown_cells a w :
  let a' := fst (AppJs.countdown a w) in
  same_cache a a' /\ tapsRef a' = tapsRef a.
Proof.
  unfold AppJs.countdown. destruct (limitUntil a) as [l|]; [|by repeat split].
  destruct (AppJs.num_truthy l); [|by repeat split].
  unfold bind, Date_now, ret. destruct l as [z|]; [|by repeat split].
  destruct (_ <=? 0)%Z; by repeat split.
Qed.

(** ** Sessions: any sequence of turns *)

Lemma bind_ret_fst {A B} (c : M A) (g : A -> B) w :
  fst ((x <~ c ;; ret (g x)) w) = g (fst (c w)).
Proof. unfold bind, ret. by destruct (c w). Qed.

Lemma primeCache_resume_default_step f a :
  cache_step a (default a (primeCache_resume f a)).
Proof.
  destruct (primeCache_resume f a) as [a'|] eqn:E; simpl.
  - by eapply primeCache_resume_step.
  - apply cache_step_refl.
Qed.

Lemma AppJs_exec_cache e a w :
  (cache_ok a -> cache_ok (fst (AppJs.exec e a w))) /\
  seenRef a ⊆ seenRef (fst (AppJs.exec e a w)).
Proof.
  destruct e as [| |fuel|f| |]; cbn [AppJs.exec].
  - rewrite bind_ret_fst. apply same_cache_step, initialLoad_cells.
  - split; [apply handlePress_cache_ok|by rewrite handlePress_seen].
  - rewrite bind_ret_fst.
    destruct (primeCache_loop_step AppJs.fetchWithRetry 4 fuel a w)
      as (H1 & H2 & _). by split.
  - destruct (primeCache_resume_default_step f a) as (H1 & H2 & _).
    by split.
  - apply same_cache_step, countdown_cells.
  - by split.
Qed.

Lemma AppJs_run_cache es a w :
  cache_ok a -> cache_ok (fst (AppJs.run es a w)).
Proof.
  revert a w. induction es as [|e es IH]; intros a w Hok; [done|].
  cbn [AppJs.run]. unfold bind.
  pose proof (AppJs_exec_cache e a w) as [H _].
  destruct (AppJs.exec e a w) as [a1 w1]. apply IH. by apply H.
Qed.

Lemma turn_exec_cache v t a w :
  (cache_ok a -> cache_ok (fst (turn_exec v t a w))) /\
  seenRef a ⊆ seenRef (fst (turn_exec v t a w)).
Proof.
  destruct t as [|fuel|f]; cbn [turn_exec].
  - rewrite bind_ret_fst.
    destruct (getNextFact_step (fetchWithRetry_of v) (FALLBACK_of v)
                (fallback_case_of v) a w) as (H1 & H2 & _). by split.
  - rewrite bind_ret_fst.
    destruct (primeCache_loop_step (fetchWithRetry_of v) (target_of v)
                fuel a w) as (H1 & H2 & _). by split.
  - destruct (primeCache_resume_default_step f a) as (H1 & H2 & _).
    by split.
Qed.

Lemma turns_cache v ts a w :
  cache_ok a -> cache_ok (fst (turns v ts a w)).
Proof.
  revert a w. induction ts as [|t ts IH]; intros a w Hok; [done|].
  cbn [turns]. unfold bind.
  pose proof (turn_exec_cache v t a w) as [H _].
  destruct (turn_exec v t a w) as [a1 w1]. apply IH. by apply H.
Qed.

Lemma init_cache_ok v : cache_ok (init_of v).
Proof.
  destruct v; (split; [apply NoDup_nil_2|]); split; intros f Hf;
    by apply elem_of_nil in Hf.
Qed.

(** Every session keeps empty texts out of the queue, which is what
    [getNextFact] needs to take the head of the queue for a fact. *)
Lemma session_queue_nonempty :
  (forall es w f, f ∈ cacheRef (fst (AppJs.run es AppJs.init w)) -> f <> "")
  /\
  (forall v ts w f,
      f ∈ cacheRef (fst (turns v ts (init_of v) w)) -> f <> "").
Proof.
  split.
  - intros es w.
    by destruct (AppJs_run_cache es AppJs.init w (init_cache_ok Current))
      as (_ & _ & ?).
  - intros v ts w.
    by destruct (turns_cache v ts (init_of v) w (init_cache_ok v))
      as (_ & _ & ?).
Qed.

(** ** What touches the window *)

Lemma publish_limiter_blind fb fc f a w taps lim rem shown :
  cells (fst (publish fb fc f (with_limiter taps lim rem shown a) w)) =
    with_limiter taps lim rem shown (cells (fst (publish fb fc f a w))) /\
  snd (publish fb fc f (with_limiter taps lim rem shown a) w) =
    snd (publish fb fc f a w) /\
  fetches (snd (publish fb fc f a w)) = fetches w.
Proof.
  unfold publish, bind.
  destruct (falsy f).
  - unfold pickFallback, bind, Math_random, ret. cbn beta.
    destruct (if (_ <? 0)%Z then _ else _); by repeat split.
  - unfold ret. destruct f; by repeat split.
Qed.

Lemma AppJs_exec_taps e a w :
  e <> AppJs.EvPress -> tapsRef (fst (AppJs.exec e a w)) = tapsRef a.
Proof.
  intros He. destruct e as [| |fuel|f| |]; [|done| | | |]; cbn [AppJs.exec].
  - rewrite bind_ret_fst. by destruct (initialLoad_cells a w) as (_ & (?&_) & _).
  - rewrite bind_ret_fst.
    by destruct (primeCache_loop_step AppJs.fetchWithRetry 4 fuel a w)
      as (_ & _ & (? & _)).
  - by destruct (primeCache_resume_default_step f a) as (_ & _ & (? & _)).
  - by destruct (countdown_cells a w) as (_ & ?).
  - done.
Qed.

Lemma handlePress_taps a w :
  tapsRef (fst (AppJs.handlePress a w)) = tapsRef a \/
  exists w1,
    tapsRef (fst (AppJs.handlePress a w)) =
      tapsRef (snd (fst (AppJs.canTap a w1))).
Proof.
  assert (forall ts, ts = tapsRef (fst (AppJs.handlePress a w)) ->
            ts = tapsRef a \/
            exists w1, ts = tapsRef (snd (fst (AppJs.canTap a w1)))) as H;
    [|by apply H].
  intros ts Hts. unfold AppJs.handlePress in Hts.
  destruct (busy a); [by left|].
  unfold bind at 1 in Hts.
  destruct (AppJs.still_limited a w) as [blocked w1].
  destruct blocked; [by left|]. right. exists w1. unfold bind at 1 in Hts.
  destruct (AppJs.canTap a w1) as [[ok a1] w2]. cbn [fst snd] in *.
  destruct ok; [|done]. unfold bind, ret in Hts.
  pose proof (getNextFact_cells AppJs.fetchWithRetry AppJs.FALLBACK
                toLowerCase a1 w2) as (_ & _ & (Ht & _) & _).
  unfold AppJs.getNextFact in Hts.
  destruct (getNextFact _ _ _ a1 w2) as [s w3]. cbn [fst snd] in *.
  congruence.
Qed.

(** ** C4: the sliding window of [canTap] *)

Lemma Math_min_spec (ts : list Z) :
  ts <> [] ->
  exists m, AppJs.Math_min ts = Fin m /\ m ∈ ts /\ forall t, t ∈ ts -> m <= t.
Proof.
  induction ts as [|t ts IH]; [done|]. intros _.
  destruct ts as [|t' ts].
  - exists t. simpl. split; [done|]. split; [apply elem_of_cons; by left|].
    intros x Hx. apply list_elem_of_singleton in Hx. lia.
  - destruct IH as (m & Hm & Hin & Hle); [done|].
    change (AppJs.Math_min (t :: t' :: ts))
      with (match AppJs.Math_min (t' :: ts) with
            | PosInf => Fin t
            | Fin m => Fin (Z.min t m)
            end).
    rewrite Hm. exists (Z.min t m). split; [done|]. split.
    + destruct (Z.min_spec t m) as [[_ ->]|[_ ->]].
      * apply elem_of_cons; by left.
      * apply elem_of_cons; by right.
    + intros x Hx. apply elem_of_cons in Hx as [->|Hx]; [lia|].
      specialize (Hle x Hx). lia.
Qed.

Lemma taps_bound_exec e a w :
  (length (tapsRef a) <= AppJs.MAX_PER_MINUTE)%nat ->
  (length (tapsRef (fst (AppJs.exec e a w))) <= AppJs.MAX_PER_MINUTE)%nat.
Proof.
  intros Hb.
  assert (e = AppJs.EvPress \/ e <> AppJs.EvPress) as [->|He]
    by (destruct e; auto; by right).
  2: by rewrite AppJs_exec_taps.
  cbn [AppJs.exec].
  destruct (handlePress_taps a w) as [->|(w1 & ->)]; [done|].
  destruct (canTap_taps a w1) as [(_ & -> & _)|(_ & -> & Hroom)].
  - etrans; [apply length_filter|done].
  - rewrite length_app. simpl. lia.
Qed.

Lemma taps_bound_run es a w :
  (length (tapsRef a) <= AppJs.MAX_PER_MINUTE)%nat ->
  (length (tapsRef (fst (AppJs.run es a w))) <= AppJs.MAX_PER_MINUTE)%nat.
Proof.
  revert a w. induction es as [|e es IH]; intros a w Hb; [done|].
  cbn [AppJs.run]. unfold bind.
  pose proof (taps_bound_exec e a w Hb) as H.
  destruct (AppJs.exec e a w) as [a1 w1]. by apply IH.
Qed.

(** C4: [canTap] reads the clock once, keeps the timestamps [t] with
    [now - t < WINDOW_MS], and then either denies (the kept count has
    reached [MAX_PER_MINUTE]: nothing is appended and [limitUntil] becomes
    the smallest kept timestamp plus [WINDOW_MS]) or appends [now] and
    allows.  Either way every kept timestamp lies in the trailing window,
    after an allowed call the window holds at most [MAX_PER_MINUTE]
    timestamps, and so it does at every point of every session. *)
Theorem C4_canTap_window :
  (forall a w,
      let now := clock w (reads w) in
      let kept := filter (fun t => now - t < AppJs.WINDOW_MS) (tapsRef a) in
      let allowed := fst (fst (AppJs.canTap a w)) in
      let a' := snd (fst (AppJs.canTap a w)) in
      (forall t, t ∈ kept <-> t ∈ tapsRef a /\ now - t < AppJs.WINDOW_MS) /\
      allowed = negb (AppJs.MAX_PER_MINUTE <=? length kept)%nat /\
      (allowed = false ->
         tapsRef a' = kept /\
         showLimit a' = true /\
         exists oldest,
           oldest ∈ kept /\ (forall t, t ∈ kept -> oldest <= t) /\
           limitUntil a' = Some (Fin (oldest + AppJs.WINDOW_MS))) /\
      (allowed = true ->
         tapsRef a' = (kept ++ [now])%list /\
         limitUntil a' = limitUntil a /\ showLimit a' = showLimit a /\
         (length (tapsRef a') <= AppJs.MAX_PER_MINUTE)%nat) /\
      (forall t, t ∈ tapsRef a' -> now - t < AppJs.WINDOW_MS) /\
      (fact a' = fact a /\ busy a' = busy a /\ cacheRef a' = cacheRef a /\
       seenRef a' = seenRef a /\ refills a' = refills a)) /\
  (forall es w,
      (length (tapsRef (fst (AppJs.run es AppJs.init w))) <=
         AppJs.MAX_PER_MINUTE)%nat).
Proof.
  split; [|intros es w; apply taps_bound_run; simpl; lia].
  intros a w now kept allowed a'.
  assert (forall t, t ∈ kept <-> t ∈ tapsRef a /\ now - t < AppJs.WINDOW_MS)
    as Hkept.
  { intros t. unfold kept. rewrite list_elem_of_filter. tauto. }
  split; [exact Hkept|].
  unfold allowed, a', AppJs.canTap, bind, Date_now.
  cbn [tapsRef set_tapsRef]. fold now. fold kept.
  destruct (AppJs.MAX_PER_MINUTE <=? length kept)%nat eqn:E;
    unfold ret; cbn.
  - apply Nat.leb_le in E. split; [done|]. split; [|split; [done|]].
    + intros _. split; [done|]. split; [done|].
      destruct (Math_min_spec kept) as (m & Hm & Hin & Hle).
      { intros Hnil. rewrite Hnil in E. unfold AppJs.MAX_PER_MINUTE in E.
        simpl in E. lia. }
      exists m. rewrite Hm. done.
    + split; [|done]. intros t Ht. by apply Hkept in Ht as [_ Ht].
  - apply Nat.leb_gt in E. split; [done|]. split; [done|]. split; [|split].
    + intros _. split; [done|]. split; [done|]. split; [done|].
      rewrite length_app. simpl. lia.
    + intros t Ht. apply elem_of_app in Ht as [Ht|Ht].
      * by apply Hkept in Ht as [_ Ht].
      * apply list_elem_of_singleton in Ht as ->.
        unfold AppJs.WINDOW_MS. lia.
    + done.
Qed.

(** A sixth tap at 10 s is denied until 61 s; at 61 s the first tap has
    left the window and the tap is counted. *)
Lemma C4_witness :
  (tapsRef (snd (fst (AppJs.canTap five_taps (at_time 10000)))) =
     [1000; 3000; 5000; 7000; 9000] /\
   showLimit (snd (fst (AppJs.canTap five_taps (at_time 10000)))) = true /\
   exists oldest,
     oldest ∈ [1000; 3000; 5000; 7000; 9000] /\
     (forall t, t ∈ [1000; 3000; 5000; 7000; 9000] -> oldest <= t) /\
     limitUntil (snd (fst (AppJs.canTap five_taps (at_time 10000)))) =
       Some (Fin (oldest + 60000))) /\
  (tapsRef (snd (fst (AppJs.canTap five_taps (at_time 61000)))) =
     [3000; 5000; 7000; 9000; 61000] /\
   limitUntil (snd (fst (AppJs.canTap five_taps (at_time 61000)))) = None /\
   showLimit (snd (fst (AppJs.canTap five_taps (at_time 61000)))) = false /\
   (length (tapsRef (snd (fst (AppJs.canTap five_taps (at_time 61000)))))
      <= 5)%nat).
Proof.
  destruct C4_canTap_window as [Hgate _]. split.
  - destruct (Hgate five_taps (at_time 10000)) as (_ & _ & Hdeny & _).
    exact (Hdeny eq_refl).
  - destruct (Hgate five_taps (at_time 61000)) as (_ & _ & _ & Hallow & _).
    exact (Hallow eq_refl).
Defined.

(** ** C5: the queue and the seen-set, over whole sessions *)

(** C5: after any sequence of turns from the mounted state (refills run to
    any length, resumed in any order, and consumes), in every version,
    each text of the queue is in the seen-set and the queue holds no text
    twice; and no turn, from any state, makes the seen-set lose a member or
    shrink. *)
Theorem C5_cache_and_seen_set :
  (forall es w,
      let a := fst (AppJs.run es AppJs.init w) in
      (forall f, f ∈ cacheRef a -> f ∈ seenRef a) /\ NoDup (cacheRef a)) /\
  (forall v ts w,
      let a := fst (turns v ts (init_of v) w) in
      (forall f, f ∈ cacheRef a -> f ∈ seenRef a) /\ NoDup (cacheRef a)) /\
  (forall e a w,
      seenRef a ⊆ seenRef (fst (AppJs.exec e a w)) /\
      (size (seenRef a) <= size (seenRef (fst (AppJs.exec e a w))))%nat) /\
  (forall v t a w,
      seenRef a ⊆ seenRef (fst (turn_exec v t a w)) /\
      (size (seenRef a) <= size (seenRef (fst (turn_exec v t a w))))%nat).
Proof.
  split; [|split; [|split]].
  - intros es w a.
    destruct (AppJs_run_cache es AppJs.init w (init_cache_ok Current))
      as (Hnd & Hseen & _). by split.
  - intros v ts w a.
    destruct (turns_cache v ts (init_of v) w (init_cache_ok v))
      as (Hnd & Hseen & _). by split.
  - intros e a w. destruct (AppJs_exec_cache e a w) as [_ H].
    split; [done|by apply subseteq_size].
  - intros v t a w. destruct (turn_exec_cache v t a w) as [_ H].
    split; [done|by apply subseteq_size].
Qed.

(** ** C9: what consumes quota *)

(** C9: in [src/App.js] the initial load, [getNextFact] itself, every run
    of the refill loop and every resumption of a suspended one leave
    [tapsRef] as it was; of all the turns of a session only a press can
    change it, and a counted press appends the clock reading.  The initial
    load does not read the limiter: with the limiter's cells overwritten at
    will it makes the same requests (at least one) and publishes the same
    fact. *)
Theorem C9_only_presses_touch_the_window :
  (forall a w, tapsRef (cells (fst (AppJs.initialLoad a w))) = tapsRef a) /\
  (forall a w taps lim rem shown,
      cells (fst (AppJs.initialLoad (with_limiter taps lim rem shown a) w)) =
        with_limiter taps lim rem shown
          (cells (fst (AppJs.initialLoad a w))) /\
      snd (AppJs.initialLoad (with_limiter taps lim rem shown a) w) =
        snd (AppJs.initialLoad a w) /\
      (fetches w < fetches (snd (AppJs.initialLoad a w)))%nat) /\
  (forall fuel a w,
      tapsRef (snd (fst (AppJs.primeCache fuel a w))) = tapsRef a) /\
  (forall f a, tapsRef (default a (primeCache_resume f a)) = tapsRef a) /\
  (forall a w, tapsRef (cells (fst (AppJs.getNextFact a w))) = tapsRef a) /\
  (forall e a w,
      e <> AppJs.EvPress -> tapsRef (fst (AppJs.exec e a w)) = tapsRef a) /\
  (forall a w,
      let now := clock w (reads w) in
      let kept := filter (fun t => now - t < AppJs.WINDOW_MS) (tapsRef a) in
      busy a = false -> limitUntil a = None ->
      (length kept < AppJs.MAX_PER_MINUTE)%nat ->
      tapsRef (fst (AppJs.handlePress a w)) = (kept ++ [now])%list).
Proof.
  split; [|split; [|split; [|split; [|split; [|split]]]]].
  - intros a w. by destruct (initialLoad_cells a w) as (_ & (? & _) & _).
  - intros a w taps lim rem shown. unfold AppJs.initialLoad, bind.
    pose proof (fetchWithRetry_of_progress Current w) as Hprog.
    cbn [fetchWithRetry_of] in Hprog.
    destruct (AppJs.fetchWithRetry w) as [f w1]. cbn [snd] in Hprog.
    destruct (publish_limiter_blind AppJs.FALLBACK toLowerCase f
                (set_busy true a) w1 taps lim rem shown) as (H1 & H2 & H3).
    split; [exact H1|]. split; [exact H2|]. by rewrite H3.
  - intros fuel a w.
    by destruct (primeCache_loop_step AppJs.fetchWithRetry 4 fuel a w)
      as (_ & _ & (? & _)).
  - intros f a.
    by destruct (primeCache_resume_default_step f a) as (_ & _ & (? & _)).
  - intros a w.
    by destruct (getNextFact_cells AppJs.fetchWithRetry AppJs.FALLBACK
                   toLowerCase a w) as (_ & _ & (? & _) & _).
  - apply AppJs_exec_taps.
  - intros a w now kept Hbusy Hlim Hroom.
    unfold AppJs.handlePress. rewrite Hbusy. unfold bind at 1.
    unfold AppJs.still_limited. rewrite Hlim. unfold ret at 1.
    unfold bind at 1.
    destruct (canTap_taps a w) as [(_ & _ & Hfull)|(Hok & Htaps & _)];
      [fold now kept in Hfull; lia|].
    fold now kept in Htaps.
    destruct (AppJs.canTap a w) as [[ok a1] w2]. cbn [fst snd] in *.
    subst ok. unfold bind, ret.
    pose proof (getNextFact_cells AppJs.fetchWithRetry AppJs.FALLBACK
                  toLowerCase a1 w2) as (_ & _ & (Ht & _) & _).
    unfold AppJs.getNextFact.
    destruct (getNextFact _ _ _ a1 w2) as [s w3]. cbn [fst snd] in *.
    congruence.
Qed.

(** A first tap at 5 s is counted; a refill of two rounds is not. *)
Lemma C9_witness :
  tapsRef (fst (AppJs.handlePress AppJs.init (at_time 5000))) = [5000] /\
  tapsRef (fst (AppJs.exec (AppJs.EvRefill 2) five_taps honey)) =
    tapsRef five_taps.
Proof.
  destruct C9_only_presses_touch_the_window
    as (_ & _ & _ & _ & _ & Hother & Hpress).
  split.
  - apply (Hpress AppJs.init (at_time 5000)); [reflexivity|reflexivity|].
    simpl. unfold AppJs.MAX_PER_MINUTE. lia.
  - apply Hother. discriminate.
Defined.

(** ** C10: what the seen-set does not record *)

Lemma pushed_refl a : pushed a a.
Proof.
  exists []. split; [by rewrite app_nil_r|]. intros x.
  rewrite elem_of_nil. tauto.
Qed.

Lemma pushed_trans a b c : pushed a b -> pushed b c -> pushed a c.
Proof.
  intros (n1 & Hc1 & Hs1) (n2 & Hc2 & Hs2). exists (n1 ++ n2)%list.
  split; [by rewrite Hc2, Hc1, app_assoc|].
  intros x. rewrite Hs2, Hs1, elem_of_app. tauto.
Qed.

Lemma offer_pushed f a : pushed a (offer f a).
Proof.
  unfold offer. destruct (decide (f ∈ seenRef a)); [apply pushed_refl|].
  exists [f]. split; [done|]. intros x. simpl.
  rewrite elem_of_union, elem_of_singleton, list_elem_of_singleton. tauto.
Qed.

Lemma primeCache_loop_pushed fw tg fuel a w :
  pushed a (snd (fst (primeCache_loop fw tg fuel a w))).
Proof.
  revert a w. induction fuel as [|fuel IH]; intros a w; simpl.
  - destruct (length (cacheRef a) <? tg)%nat; apply pushed_refl.
  - destruct (length (cacheRef a) <? tg)%nat; simpl; [|apply pushed_refl].
    unfold bind. destruct (fw w) as [f w1].
    unfold primeCache_resume. destruct f as [t|]; [|apply pushed_refl].
    destruct (falsy (Some t)); [apply pushed_refl|].
    eapply pushed_trans; [apply offer_pushed|apply IH].
Qed.

(** C10: [getNextFact] (every version's), the initial load and a press
    leave the seen-set as it was, whichever path produced the fact; a run
    of the refill loop adds to the seen-set exactly the texts it appends to
    the queue.  So a fact shown by the direct fetch, or drawn from the
    fallback list, is not in the seen-set, and when a refill fetches the
    same text later it enters the queue and is shown again: both happen in
    the sessions below. *)
Theorem C10_seen_set_records_only_queued_facts :
  (forall v a w, seenRef (cells (fst (getNextFact_of v a w))) = seenRef a) /\
  (forall a w,
      seenRef (cells (fst (AppJs.initialLoad a w))) = seenRef a /\
      seenRef (fst (AppJs.handlePress a w)) = seenRef a) /\
  (forall v fuel a w,
      pushed a (snd (fst (primeCache_of v fuel a w)))) /\
  (let t := "honey never spoils." in
   let a1 := fst (AppJs.run [AppJs.EvPress] AppJs.init honey) in
   let a2 := fst (AppJs.run [AppJs.EvPress; AppJs.EvRefill 1]
                    AppJs.init honey) in
   let a3 := fst (AppJs.run [AppJs.EvPress; AppJs.EvRefill 1; AppJs.EvPress]
                    AppJs.init honey) in
   fst (AppJs.fetchWithRetry honey) = Some t /\
   fact a1 = t /\ cacheRef a1 = [] /\ seenRef a1 = ∅ /\
   cacheRef a2 = [t] /\
   fact a3 = t /\ cacheRef a3 = []) /\
  (let t := "sharks existed before trees." in
   let a1 := fst (AppJs.run [AppJs.EvPress] AppJs.init late_sharks) in
   let a2 := fst (AppJs.run [AppJs.EvPress; AppJs.EvRefill 1]
                    AppJs.init late_sharks) in
   let a3 := fst (AppJs.run [AppJs.EvPress; AppJs.EvRefill 1; AppJs.EvPress]
                    AppJs.init late_sharks) in
   fst (AppJs.fetchWithRetry late_sharks) = None /\
   fact a1 = t /\ cacheRef a1 = [] /\ seenRef a1 = ∅ /\
   cacheRef a2 = [t] /\
   fact a3 = t /\ cacheRef a3 = []).
Proof.
  split; [|split; [|split; [|split]]].
  - intros v a w.
    by destruct (getNextFact_cells (fetchWithRetry_of v) (FALLBACK_of v)
                   (fallback_case_of v) a w) as (? & _).
  - intros a w. split; [|apply handlePress_seen].
    by destruct (initialLoad_cells a w) as ((_ & ?) & _).
  - intros v fuel a w. apply primeCache_loop_pushed.
  - vm_compute. by repeat split.
  - vm_compute. by repeat split.
Qed.

(** * Further properties *)

(** ** One attempt *)

(** X1: an attempt of [fetchWithRetry] succeeds exactly when the response
    has an ok status and a JSON object as body whose [text] field is a
    non-empty string; the text is lowercased by [src/App.js] and the second
    version and handed on as received by the first.  Every other response
    (no answer, a status that is not ok, a body that is not JSON or not an
    object, a missing, empty or non-string [text]) is a failed attempt. *)
Theorem X1_attempt_succeeds_iff (v : version) (r : response) (t : string) :
  try_text_of v (reply_of r) = Some t <->
  exists fields s,
    r = Answer true (Some (JObj fields)) /\
    fields !! "text" = Some (VStr s) /\ s <> "" /\
    t = fallback_case_of v s.
Proof.
  split.
  - destruct r as [|[|] [d|]]; try by destruct v.
    destruct d as [| | | | |fields]; try by destruct v.
    unfold reply_of. cbn [fetchJson negb toText].
    destruct (fields !! "text") as [[| |b|z|s|]|] eqn:E; try by destruct v.
    cbn [default]. intros H. exists fields, s.
    split; [done|]. split; [done|].
    destruct (String.eqb s "") eqn:Es.
    + destruct v; simpl in H; rewrite Es in H; discriminate.
    + split; [by apply String.eqb_neq|].
      destruct v; simpl in H; rewrite Es in H; simpl in H;
        injection H as <-; reflexivity.
  - intros (fields & s & -> & Hf & Hs & ->).
    unfold reply_of. cbn [fetchJson negb toText]. rewrite Hf. cbn [default].
    destruct v; cbn [try_text_of fallback_case_of].
    + by apply Part000_try_text_str.
    + by apply AppJs_try_text_str.
    + by apply AppJs_try_text_str.
Qed.

(** ** What a call of [fetchWithRetry] returns, read backwards *)

(** X2: the result of [fetchWithRetry] traced back to the network.  A text
    is returned only as the (non-empty) text of an attempt of this very
    call, every attempt before it having failed and none being made after
    it; [null] is returned only after all the attempts of the version (3,
    or 4 in the first) were made and failed: the call never gives up
    early. *)
Theorem X2_fetchWithRetry_result_traced (v : version) (w : World) :
  match fst (fetchWithRetry_of v w) with
  | Some t =>
      t <> "" /\
      exists k,
        (k < attempts_of v)%nat /\
        try_text_of v (net w (fetches w + k)%nat) = Some t /\
        (forall i, (i < k)%nat ->
                   try_text_of v (net w (fetches w + i)%nat) = None) /\
        fetches (snd (fetchWithRetry_of v w)) = (fetches w + k + 1)%nat
  | None =>
      (forall i, (i < attempts_of v)%nat ->
                 try_text_of v (net w (fetches w + i)%nat) = None) /\
      fetches (snd (fetchWithRetry_of v w)) = (fetches w + attempts_of v)%nat
  end.
Proof.
  destruct (fetchWithRetry_of_eq v w) as (Hr & Hf & _). cbv zeta in Hr, Hf.
  change (match v with First => 4%nat | _ => 3%nat end)
    with (attempts_of v) in Hr, Hf.
  set (n := attempts_of v) in *.
  set (k := leading_failures (try_text_of v) (net w) (fetches w) n) in *.
  pose proof (leading_failures_le (try_text_of v) (net w) (fetches w) n)
    as Hle. fold k in Hle.
  rewrite Hr, Hf. destruct (k <? n)%nat eqn:E.
  - apply Nat.ltb_lt in E.
    destruct (leading_failures_hit (try_text_of v) (net w) (fetches w) n E)
      as [t Ht]. fold k in Ht. rewrite Ht.
    split; [by eapply try_text_of_nonempty|].
    exists k. split; [done|]. split; [done|]. split; [|lia].
    intros i Hi. by apply (leading_failures_miss _ _ _ n).
  - apply Nat.ltb_ge in E. assert (k = n) as Hk by lia. split; [|done].
    intros i Hi. apply (leading_failures_miss _ _ _ n). fold k. lia.
Qed.

(** ** What a call of [fetchWithRetry] does to the world besides *)

(** X3: [fetchWithRetry] of [src/App.js] (and of the second version) reads
    no clock, draws no random value and logs nothing; the first version's
    draws one random value per wait, that is one fewer than it makes
    attempts, and calls [console.warn] once exactly when it returns
    [null]. *)
Theorem X3_fetchWithRetry_side_effects (w : World) :
  (let w' := snd (AppJs.fetchWithRetry w) in
   draws w' = draws w /\ reads w' = reads w /\ warnings w' = warnings w /\
   net w' = net w /\ rnd w' = rnd w /\ clock w' = clock w) /\
  (let r := fst (Part000.fetchWithRetry w) in
   let w' := snd (Part000.fetchWithRetry w) in
   draws w' = (draws w + (fetches w' - fetches w - 1))%nat /\
   length (slept w') = (length (slept w) + (fetches w' - fetches w - 1))%nat /\
   warnings w' = (warnings w + match r with None => 1 | Some _ => 0 end)%nat /\
   reads w' = reads w /\
   net w' = net w /\ rnd w' = rnd w /\ clock w' = clock w).
Proof.
  split.
  - unfold AppJs.fetchWithRetry. rewrite AppJs_retry_loop_eq by lia.
    cbv zeta. by repeat split.
  - unfold Part000.fetchWithRetry, Part000.fetchWithRetry_tuned.
    rewrite Part000_retry_loop_eq by lia. cbv zeta.
    change (S Part000.MAX_RETRIES - 0)%nat with 4%nat.
    set (k := leading_failures _ _ _ _).
    pose proof (leading_failures_le Part000.try_text (net w) (fetches w) 4)
      as Hle. fold k in Hle.
    destruct (k <? 4)%nat eqn:E; cbn [fst snd draws fetches slept warnings
                                        reads net rnd clock].
    + apply Nat.ltb_lt in E.
      destruct (leading_failures_hit Part000.try_text (net w) (fetches w) 4 E)
        as [t Ht]. fold k in Ht. rewrite Ht.
      rewrite length_app. unfold jittered. rewrite length_map, length_seq.
      repeat split; lia.
    + rewrite length_app. unfold jittered. rewrite length_map, length_seq.
      repeat split; lia.
Qed.

(** ** The first version's delays under its own tuning *)

Lemma pow2_Q_ge1 (i : nat) : (1 <= inject_Z (2 ^ Z.of_nat i))%Q.
Proof.
  change 1%Q with (inject_Z 1). rewrite <- Zle_Qle.
  pose proof (Z.pow_pos_nonneg 2 (Z.of_nat i)). lia.
Qed.

Lemma pow2_Q_S (i : nat) :
  (inject_Z (2 ^ Z.of_nat (S i)) == 2 * inject_Z (2 ^ Z.of_nat i))%Q.
Proof.
  rewrite Nat2Z.inj_succ, Z.pow_succ_r by lia. by rewrite inject_Z_mult.
Qed.

(** With base 400 and jitter 1/4 the delay is [300 * 2^i + 200 * 2^i * r]:
    never below 300, so the floor of 100 is never the larger. *)
Lemma backoff_default i (r : rand01) :
  (Part000.backoff_delay Part000.BASE_DELAY_MS Part000.JITTER i r ==
   300 * inject_Z (2 ^ Z.of_nat i) +
   200 * (inject_Z (2 ^ Z.of_nat i) * rv r))%Q.
Proof.
  destruct (rv_bounds r) as [H0 H1].
  pose proof (pow2_Q_ge1 i) as HB.
  unfold Part000.backoff_delay, Part000.backoff_base, Part000.BASE_DELAY_MS,
    Part000.JITTER. cbv zeta.
  set (B := inject_Z (2 ^ Z.of_nat i)) in *.
  assert (0 <= B * rv r)%Q as Hp by (apply Qmult_le_0_compat; lra).
  assert (400 * B + 400 * B * (rv r * 2 * (1 # 4) - (1 # 4)) ==
          300 * B + 200 * (B * rv r))%Q as E by ring.
  rewrite E. apply Q.max_r. lra.
Qed.

(** X5: with the first version's tuning (base 400 ms, jitter 1/4) the
    floor of 100 ms never takes effect: the wait after failed attempt [i]
    is [base + jitter] itself, lies in [[300 * 2^i, 500 * 2^i)], and is
    strictly shorter than the wait after the next failed attempt whatever
    the two random draws. *)
Theorem X5_default_backoff_grows (i : nat) (r r' : rand01) :
  let base := Part000.backoff_base Part000.BASE_DELAY_MS i in
  let jitter := (base * (rv r * 2 * Part000.JITTER - Part000.JITTER))%Q in
  let d := Part000.backoff_delay Part000.BASE_DELAY_MS Part000.JITTER i r in
  let d' :=
    Part000.backoff_delay Part000.BASE_DELAY_MS Part000.JITTER (S i) r' in
  (d == base + jitter)%Q /\
  (300 * inject_Z (2 ^ Z.of_nat i) <= d)%Q /\
  (d < 500 * inject_Z (2 ^ Z.of_nat i))%Q /\
  (d < d')%Q.
Proof.
  cbv zeta.
  destruct (rv_bounds r) as [H0 H1]. destruct (rv_bounds r') as [H0' H1'].
  pose proof (pow2_Q_ge1 i) as HB.
  rewrite !backoff_default, pow2_Q_S.
  unfold Part000.backoff_base, Part000.BASE_DELAY_MS, Part000.JITTER.
  set (B := inject_Z (2 ^ Z.of_nat i)) in *.
  assert (0 <= B * rv r)%Q as Hp by (apply Qmult_le_0_compat; lra).
  assert (B * rv r < B)%Q as Hq.
  { rewrite <- (Qmult_1_r B) at 2. apply Qmult_lt_l; lra. }
  assert (0 <= 2 * B * rv r')%Q as Hp'
    by (apply Qmult_le_0_compat; lra).
  split; [ring|]. split; [lra|]. split; [lra|]. lra.
Qed.

(** ** How long a call of [fetchWithRetry] waits in all *)

(** X4: the waits of one call of [fetchWithRetry], added up.  In
    [src/App.js] a call with [k] failed attempts waits exactly
    [400 * (2^k - 1)] ms, 2800 ms when it returns [null].  In the first
    version a call with [n] attempts waits between [300 * (2^(n-1) - 1)]
    and [500 * (2^(n-1) - 1)] ms: never more than 3500 ms, and at least
    2100 ms when it returns [null]. *)
Theorem X4_total_wait_of_a_call (w : World) :
  (exists new,
     slept (snd (AppJs.fetchWithRetry w)) = (slept w ++ new)%list /\
     let n := (fetches (snd (AppJs.fetchWithRetry w)) - fetches w)%nat in
     let failed := match fst (AppJs.fetchWithRetry w) with
                   | Some _ => (n - 1)%nat
                   | None => n
                   end in
     (total_wait new == inject_Z (400 * (2 ^ Z.of_nat failed - 1)))%Q /\
     (total_wait new <= 2800)%Q /\
     (fst (AppJs.fetchWithRetry w) = None -> (total_wait new == 2800)%Q)) /\
  (exists new,
     slept (snd (Part000.fetchWithRetry w)) = (slept w ++ new)%list /\
     let n := (fetches (snd (Part000.fetchWithRetry w)) - fetches w)%nat in
     (inject_Z (300 * (2 ^ Z.of_nat (n - 1) - 1)) <= total_wait new)%Q /\
     (total_wait new <= inject_Z (500 * (2 ^ Z.of_nat (n - 1) - 1)))%Q /\
     (total_wait new <= 3500)%Q /\
     (fst (Part000.fetchWithRetry w) = None -> (2100 <= total_wait new)%Q)).
Proof.
  split.
  - unfold AppJs.fetchWithRetry. rewrite AppJs_retry_loop_eq by lia.
    cbv zeta. change (3 - 0)%nat with 3%nat.
    set (k := leading_failures _ _ _ _).
    pose proof (leading_failures_le AppJs.try_text (net w) (fetches w) 3)
      as Hle. fold k in Hle.
    exists (doubling 400 k). cbn [fst snd slept fetches]. split; [done|].
    destruct (k <? 3)%nat eqn:E.
    + apply Nat.ltb_lt in E.
      destruct (leading_failures_hit AppJs.try_text (net w) (fetches w) 3 E)
        as [t Ht]. fold k in Ht. rewrite Ht.
      replace (fetches w + S k - fetches w - 1)%nat with k by lia.
      destruct k as [|[|[|k]]]; [| | |lia];
        (split; [reflexivity|split; [vm_compute; discriminate|done]]).
    + apply Nat.ltb_ge in E. assert (k = 3%nat) as -> by lia.
      replace (fetches w + 3 - fetches w)%nat with 3%nat by lia.
      split; [reflexivity|]. split; [vm_compute; discriminate|].
      intros _. reflexivity.
  - unfold Part000.fetchWithRetry, Part000.fetchWithRetry_tuned.
    rewrite Part000_retry_loop_eq by lia. cbv zeta.
    change (S Part000.MAX_RETRIES - 0)%nat with 4%nat.
    set (k := leading_failures _ _ _ _).
    pose proof (leading_failures_le Part000.try_text (net w) (fetches w) 4)
      as Hle. fold k in Hle.
    assert (forall m, (m <= 3)%nat ->
      let l := jittered Part000.BASE_DELAY_MS Part000.JITTER (rnd w)
                 (draws w) 0 m in
      (inject_Z (300 * (2 ^ Z.of_nat m - 1)) <= total_wait l)%Q /\
      (total_wait l <= inject_Z (500 * (2 ^ Z.of_nat m - 1)))%Q /\
      (total_wait l <= 3500)%Q /\ (m = 3%nat -> 2100 <= total_wait l)%Q)
      as Hsum.
    { intros m Hm l. subst l. unfold jittered.
      pose proof (Hd := fun i r => conj (backoff_default i r) (rv_bounds r)).
      destruct (Hd 0%nat (rnd w (draws w + 0)%nat)) as (E0 & ? & ?).
      destruct (Hd 1%nat (rnd w (draws w + 1)%nat)) as (E1 & ? & ?).
      destruct (Hd 2%nat (rnd w (draws w + 2)%nat)) as (E2 & ? & ?).
      change (inject_Z (2 ^ Z.of_nat 0)) with 1%Q in E0.
      change (inject_Z (2 ^ Z.of_nat 1)) with 2%Q in E1.
      change (inject_Z (2 ^ Z.of_nat 2)) with 4%Q in E2.
      destruct m as [|[|[|[|m]]]]; [| | | |lia];
        cbn [seq map total_wait fold_right Nat.add];
        rewrite ?E0, ?E1, ?E2;
        [change (inject_Z (300 * (2 ^ Z.of_nat 0 - 1))) with 0%Q;
         change (inject_Z (500 * (2 ^ Z.of_nat 0 - 1))) with 0%Q
        |change (inject_Z (300 * (2 ^ Z.of_nat 1 - 1))) with 300%Q;
         change (inject_Z (500 * (2 ^ Z.of_nat 1 - 1))) with 500%Q
        |change (inject_Z (300 * (2 ^ Z.of_nat 2 - 1))) with 900%Q;
         change (inject_Z (500 * (2 ^ Z.of_nat 2 - 1))) with 1500%Q
        |change (inject_Z (300 * (2 ^ Z.of_nat 3 - 1))) with 2100%Q;
         change (inject_Z (500 * (2 ^ Z.of_nat 3 - 1))) with 3500%Q];
        (split; [lra|split; [lra|split; [lra|intros; try lia; lra]]]). }
    destruct (k <? 4)%nat eqn:E; cbn [fst snd slept fetches].
    + apply Nat.ltb_lt in E.
      destruct (leading_failures_hit Part000.try_text (net w) (fetches w) 4 E)
        as [t Ht]. fold k in Ht. rewrite Ht.
      eexists. split; [reflexivity|].
      replace (fetches w + S k - fetches w - 1)%nat with k by lia.
      destruct (Hsum k ltac:(lia)) as (H1 & H2 & H3 & _).
      split; [done|]. split; [done|]. split; [done|]. discriminate.
    + eexists. split; [reflexivity|].
      replace (fetches w + 4 - fetches w - 1)%nat with 3%nat by lia.
      change (4 - 1)%nat with 3%nat.
      destruct (Hsum 3%nat ltac:(lia)) as (H1 & H2 & H3 & H4).
      split; [done|]. split; [done|]. split; [done|]. intros _. by apply H4.
Qed.

(** ** The limiter, tap after tap *)

Lemma in_window_all now ts :
  (forall t, t ∈ ts -> now - t < AppJs.WINDOW_MS) -> in_window now ts = ts.
Proof.
  unfold in_window. induction ts as [|t ts IH]; intros H; [done|].
  rewrite filter_cons_True by (apply H; apply elem_of_cons; by left).
  f_equal. apply IH. intros x Hx. apply H. apply elem_of_cons. by right.
Qed.

Lemma canTap_denied a w :
  fst (fst (AppJs.canTap a w)) = false ->
  let now := clock w (reads w) in
  let kept := in_window now (tapsRef a) in
  exists m,
    m ∈ kept /\ (forall t, t ∈ kept -> m <= t) /\
    (AppJs.MAX_PER_MINUTE <= length kept)%nat /\
    AppJs.canTap a w =
      (false,
       set_showLimit true
         (set_limitUntil (Some (Fin (m + AppJs.WINDOW_MS)))
            (set_tapsRef kept a)),
       snd (Date_now w)).
Proof.
  intros Hd now kept. unfold AppJs.canTap, bind, Date_now in *.
  cbn [tapsRef set_tapsRef] in *. fold now in Hd |- *.
  change (filter (fun t => now - t < AppJs.WINDOW_MS) (tapsRef a))
    with kept in Hd |- *.
  destruct (AppJs.MAX_PER_MINUTE <=? length kept)%nat eqn:E; [|done].
  apply Nat.leb_le in E.
  destruct (Math_min_spec kept) as (m & Hm & Hin & Hle).
  { intros Hnil. rewrite Hnil in E. unfold AppJs.MAX_PER_MINUTE in E.
    simpl in E. lia. }
  exists m. rewrite Hm. by repeat split.
Qed.

Lemma canTap_allowed a w :
  fst (fst (AppJs.canTap a w)) = true ->
  let now := clock w (reads w) in
  let kept := in_window now (tapsRef a) in
  (length kept < AppJs.MAX_PER_MINUTE)%nat /\
  AppJs.canTap a w =
    (true, set_tapsRef (kept ++ [now]) (set_tapsRef kept a),
     snd (Date_now w)).
Proof.
  intros Hd now kept. unfold AppJs.canTap, bind, Date_now in *.
  cbn [tapsRef set_tapsRef] in *. fold now in Hd |- *.
  change (filter (fun t => now - t < AppJs.WINDOW_MS) (tapsRef a))
    with kept in Hd |- *.
  destruct (AppJs.MAX_PER_MINUTE <=? length kept)%nat eqn:E; [done|].
  apply Nat.leb_gt in E. by split.
Qed.

Lemma canTap_decides a w :
  fst (fst (AppJs.canTap a w)) =
  negb (AppJs.MAX_PER_MINUTE <=?
          length (in_window (clock w (reads w)) (tapsRef a)))%nat.
Proof.
  unfold AppJs.canTap, bind, Date_now, in_window.
  cbn [tapsRef set_tapsRef]. by destruct (_ <=? _)%nat.
Qed.

(** X7: the deadline a denial announces is exact.  When [canTap] denies a
    tap (the window holding at most [MAX_PER_MINUTE] timestamps, as it does
    in every session), [limitUntil] is set to a time [z] later than the
    clock reading of the denied tap, and from then on a tap is allowed if
    and only if the clock has reached [z]: earlier taps are denied again,
    taps at [z] or later are counted. *)
Theorem X7_denial_deadline_is_exact (a : App) (w1 w2 : World) :
  (length (tapsRef a) <= AppJs.MAX_PER_MINUTE)%nat ->
  fst (fst (AppJs.canTap a w1)) = false ->
  let a1 := snd (fst (AppJs.canTap a w1)) in
  exists z,
    limitUntil a1 = Some (Fin z) /\
    clock w1 (reads w1) < z /\
    (fst (fst (AppJs.canTap a1 w2)) = true <-> z <= clock w2 (reads w2)).
Proof.
  intros Hlen Hden a1.
  destruct (canTap_denied a w1 Hden) as (m & Hin & Hmin & Hfull & Heq).
  set (now1 := clock w1 (reads w1)) in *.
  set (kept := in_window now1 (tapsRef a)) in *.
  assert (length kept = AppJs.MAX_PER_MINUTE) as Hfive.
  { pose proof (length_filter (fun t => now1 - t < AppJs.WINDOW_MS)
                  (tapsRef a)) as Hf. fold (in_window now1 (tapsRef a)) in Hf.
    fold kept in Hf. lia. }
  assert (tapsRef a1 = kept) as Ht by (unfold a1; by rewrite Heq).
  exists (m + AppJs.WINDOW_MS).
  split; [unfold a1; by rewrite Heq|]. split.
  { apply list_elem_of_filter in Hin as [Hin _]. lia. }
  rewrite canTap_decides, Ht. set (now2 := clock w2 (reads w2)).
  rewrite negb_true_iff, Nat.leb_gt. split.
  - intros Hroom. destruct (Z.le_gt_cases (m + AppJs.WINDOW_MS) now2)
      as [?|Hearly]; [done|].
    rewrite in_window_all in Hroom; [lia|].
    intros t Hin'. specialize (Hmin t Hin'). lia.
  - intros Hlate. rewrite <- Hfive.
    apply (length_filter_lt _ _ m); [done|lia].
Qed.

Lemma X7_witness :
  exists z,
    limitUntil (snd (fst (AppJs.canTap five_taps (at_time 10000)))) =
      Some (Fin z) /\
    clock (at_time 10000) (reads (at_time 10000)) < z /\
    (fst (fst (AppJs.canTap
                 (snd (fst (AppJs.canTap five_taps (at_time 10000))))
                 (at_time 61000))) = true <->
     z <= clock (at_time 61000) (reads (at_time 61000))).
Proof.
  apply (X7_denial_deadline_is_exact five_taps (at_time 10000)
           (at_time 61000)).
  - simpl. unfold AppJs.MAX_PER_MINUTE. lia.
  - reflexivity.
Defined.

(** ** A press, case by case *)

Lemma publish_resolves fb fc f a w :
  fb <> [] ->
  exists t,
    fst (publish fb fc f a w) =
      Resolved (set_busy false (fire_primeCache (set_fact t a))) /\
    fetches (snd (publish fb fc f a w)) = fetches w /\
    slept (snd (publish fb fc f a w)) = slept w /\
    (falsy f = false -> f = Some t) /\
    (falsy f = true -> exists e, e ∈ fb /\ t = fc e).
Proof.
  intros Hfb. destruct (falsy f) eqn:Ef.
  - destruct (publish_fallback fb fc f a w Hfb Ef)
      as (e & Hnth & _ & Hres & Hfe & Hsl).
    exists (fc e). repeat split; try done. intros _. exists e.
    split; [|done]. apply list_elem_of_In. by eapply nth_error_In.
  - destruct f as [t|]; [|done]. pose proof (falsy_false_nonempty t Ef).
    exists t. rewrite publish_text by done. by repeat split.
Qed.

Lemma getNextFact_resolves fw fb fc a w :
  fb <> [] ->
  exists t,
    fst (getNextFact fw fb fc a w) =
      Resolved (set_busy false (fire_primeCache
        (set_fact t (snd (shift (set_busy true a)))))).
Proof.
  intros Hfb. unfold getNextFact.
  destruct (shift (set_busy true a)) as [f0 a0]. unfold bind at 1.
  destruct ((if falsy f0 then fw else ret f0) w) as [f1 w1].
  destruct (publish_resolves fb fc f1 a0 w1 Hfb) as (t & Hres & _).
  by exists t.
Qed.

Lemma still_limited_quiet a w :
  let w' := snd (AppJs.still_limited a w) in
  fetches w' = fetches w /\ slept w' = slept w /\ draws w' = draws w /\
  net w' = net w /\ rnd w' = rnd w /\ clock w' = clock w.
Proof.
  destruct (still_limited_world a w) as [->|(r & ->)]; by repeat split.
Qed.

(** X6: a press reaches the network only after it has been counted.  Either
    the press is quiet (the component was busy, the limit still ran, or
    [canTap] denied: no request, no wait, no random draw, and [fact], the
    queue, the seen-set, [refills] and [busy] as before), or [canTap]
    allowed it: the window then ends with this tap's timestamp and
    [getNextFact] has published and fired one refill. *)
Theorem X6_press_quiet_or_counted (a : App) (w : World) :
  let a' := fst (AppJs.handlePress a w) in
  let w' := snd (AppJs.handlePress a w) in
  (fetches w' = fetches w /\ slept w' = slept w /\ draws w' = draws w /\
   fact a' = fact a /\ cacheRef a' = cacheRef a /\ seenRef a' = seenRef a /\
   refills a' = refills a /\ busy a' = busy a) \/
  (busy a = false /\
   exists w1,
     fst (fst (AppJs.canTap a w1)) = true /\
     tapsRef a' =
       (in_window (clock w1 (reads w1)) (tapsRef a) ++
        [clock w1 (reads w1)])%list /\
     refills a' = S (refills a) /\ busy a' = false).
Proof.
  cbv zeta.
  assert (forall r, r = AppJs.handlePress a w ->
    (fetches (snd r) = fetches w /\ slept (snd r) = slept w /\
     draws (snd r) = draws w /\
     fact (fst r) = fact a /\ cacheRef (fst r) = cacheRef a /\
     seenRef (fst r) = seenRef a /\
     refills (fst r) = refills a /\ busy (fst r) = busy a) \/
    (busy a = false /\
     exists w1,
       fst (fst (AppJs.canTap a w1)) = true /\
       tapsRef (fst r) =
         (in_window (clock w1 (reads w1)) (tapsRef a) ++
          [clock w1 (reads w1)])%list /\
       refills (fst r) = S (refills a) /\ busy (fst r) = false)) as H;
    [|by apply H].
  intros r Hr. unfold AppJs.handlePress in Hr.
  destruct (busy a) eqn:Hb; [left; subst r; by repeat split|].
  unfold bind at 1 in Hr.
  pose proof (still_limited_quiet a w) as (Hq1 & Hq2 & Hq3 & _).
  destruct (AppJs.still_limited a w) as [blocked w1]. cbn [snd] in *.
  destruct blocked; [left; subst r; by repeat split|].
  unfold bind at 1 in Hr.
  destruct (fst (fst (AppJs.canTap a w1))) eqn:Hok.
  - right. split; [done|]. exists w1. split; [done|].
    destruct (canTap_allowed a w1 Hok) as (_ & Heq). rewrite Heq in Hr.
    cbn [fst snd] in Hr. unfold bind, ret in Hr.
    destruct (getNextFact_resolves AppJs.fetchWithRetry AppJs.FALLBACK
                toLowerCase
                (set_tapsRef
                   (in_window (clock w1 (reads w1)) (tapsRef a) ++
                    [clock w1 (reads w1)])
                   (set_tapsRef (in_window (clock w1 (reads w1)) (tapsRef a))
                      a))
                (snd (Date_now w1))) as (t & Hres); [done|].
    unfold AppJs.getNextFact in Hr.
    destruct (getNextFact _ _ _ _ _) as [s w3]. cbn [fst] in Hres.
    subst s r. cbn [fst cells]. unfold shift.
    cbn [cacheRef set_busy set_tapsRef].
    destruct (cacheRef a); by repeat split.
  - left. destruct (canTap_denied a w1 Hok) as (m & _ & _ & _ & Heq).
    rewrite Heq in Hr. cbn [fst snd] in Hr. subst r. unfold ret.
    cbn. by repeat split.
Qed.

(** ** The countdown *)

Lemma countdown_running a w z :
  limitUntil a = Some (Fin z) -> z <> 0 ->
  AppJs.countdown a w =
  let now := clock w (reads w) in
  let msLeft := Z.max 0 (z - now) in
  let a1 := set_remaining (Fin (- (- msLeft / 1000))) a in
  (if (msLeft <=? 0)%Z then set_showLimit false (set_limitUntil None a1)
   else a1,
   snd (Date_now w)).
Proof.
  intros Hl Hz. unfold AppJs.countdown. rewrite Hl.
  cbn [AppJs.num_truthy]. apply Z.eqb_neq in Hz. rewrite Hz. cbn [negb].
  unfold bind, Date_now, ret. cbv zeta. by destruct (_ <=? 0)%Z.
Qed.

(** X8: one firing of the countdown while a limit [z] is set.  Before [z]
    the limit and the popup stay as they are and [remaining] becomes the
    milliseconds left rounded up to whole seconds (at least 1); from [z]
    on the limit is cleared, the popup is closed and [remaining] is 0.  The
    window, the queue, the fact and [busy] are never touched. *)
Theorem X8_countdown_fires (a : App) (w : World) (z : Z) :
  limitUntil a = Some (Fin z) -> z <> 0 ->
  let now := clock w (reads w) in
  let a' := fst (AppJs.countdown a w) in
  (now < z ->
     limitUntil a' = Some (Fin z) /\ showLimit a' = showLimit a /\
     exists secs,
       remaining a' = Fin secs /\ 1 <= secs /\
       1000 * (secs - 1) < z - now <= 1000 * secs) /\
  (z <= now ->
     limitUntil a' = None /\ showLimit a' = false /\
     remaining a' = Fin 0) /\
  tapsRef a' = tapsRef a /\ cacheRef a' = cacheRef a /\
  seenRef a' = seenRef a /\ fact a' = fact a /\ busy a' = busy a.
Proof.
  intros Hl Hz now a'. unfold a'. rewrite (countdown_running a w z Hl Hz).
  cbv zeta. fold now. cbn [fst].
  split; [|split].
  - intros Hearly. rewrite Z.max_r by lia.
    destruct (z - now <=? 0)%Z eqn:E; [apply Z.leb_le in E; lia|].
    cbn. split; [done|]. split; [done|].
    exists (- (- (z - now) / 1000)). split; [done|].
    pose proof (Z.div_mod (- (z - now)) 1000 ltac:(lia)) as Hdm.
    pose proof (Z.mod_pos_bound (- (z - now)) 1000 ltac:(lia)) as Hmb.
    lia.
  - intros Hlate. rewrite Z.max_l by lia. cbn. by repeat split.
  - destruct (_ <=? 0)%Z; by repeat split.
Qed.

Lemma X8_witness :
  let a := snd (fst (AppJs.canTap five_taps (at_time 10000))) in
  let a' := fst (AppJs.countdown a (at_time 58500)) in
  let a'' := fst (AppJs.countdown a (at_time 61000)) in
  (limitUntil a' = Some (Fin 61000) /\ showLimit a' = true /\
   exists secs, remaining a' = Fin secs /\ 1 <= secs /\
                1000 * (secs - 1) < 61000 - 58500 <= 1000 * secs) /\
  (limitUntil a'' = None /\ showLimit a'' = false /\ remaining a'' = Fin 0).
Proof.
  intros a a' a''.
  destruct (X8_countdown_fires a (at_time 58500) 61000)
    as (Hrun & _); [reflexivity|lia|].
  destruct (X8_countdown_fires a (at_time 61000) 61000)
    as (_ & Hend & _); [reflexivity|lia|].
  split.
  - apply Hrun. simpl. lia.
  - apply Hend. simpl. lia.
Defined.

(** ** Limit, wait, release *)

Lemma handlePress_blocked a w z :
  busy a = false -> limitUntil a = Some (Fin z) -> z <> 0 ->
  clock w (reads w) < z ->
  AppJs.handlePress a w = (set_showLimit true a, snd (Date_now w)).
Proof.
  intros Hb Hl Hz Hnow. unfold AppJs.handlePress. rewrite Hb.
  unfold bind at 1. unfold AppJs.still_limited. rewrite Hl.
  cbn [AppJs.num_truthy]. apply Z.eqb_neq in Hz. rewrite Hz. cbn [negb].
  unfold bind, Date_now, ret. cbn [AppJs.before].
  apply Z.ltb_lt in Hnow. by rewrite Hnow.
Qed.

Lemma handlePress_unlimited a w :
  busy a = false -> limitUntil a = None ->
  AppJs.handlePress a w =
  (r <~ AppJs.canTap a ;;
   if fst r then (s <~ AppJs.getNextFact (snd r) ;; ret (cells s))
   else ret (snd r)) w.
Proof.
  intros Hb Hl. unfold AppJs.handlePress. rewrite Hb.
  unfold bind at 1. unfold AppJs.still_limited. by rewrite Hl.
Qed.

Lemma AppJs_run_cons e es a w :
  AppJs.run (e :: es) a w =
  AppJs.run es (fst (AppJs.exec e a w)) (snd (AppJs.exec e a w)).
Proof. cbn [AppJs.run]. unfold bind. by destruct (AppJs.exec e a w). Qed.

(** X9: limit, wait, release.  Five taps fill the window; a sixth press is
    denied and sets the limit to [z], the oldest tap plus [WINDOW_MS]; a
    press before [z] only shows the popup again, without reaching
    [canTap]; a countdown firing at or after [z] clears the limit; the next
    press, at or after [z], is counted: its timestamp ends the window,
    which is back within [MAX_PER_MINUTE], and [getNextFact] runs. *)
Theorem X9_limit_wait_release (a : App) (w : World) (m : Z) :
  let c := fun i => clock w (reads w + i)%nat in
  let z := m + AppJs.WINDOW_MS in
  busy a = false -> limitUntil a = None ->
  length (tapsRef a) = AppJs.MAX_PER_MINUTE ->
  (forall t, t ∈ tapsRef a -> c 0%nat - t < AppJs.WINDOW_MS) ->
  m ∈ tapsRef a -> (forall t, t ∈ tapsRef a -> m <= t) ->
  z <> 0 -> c 1%nat < z -> z <= c 2%nat -> z <= c 3%nat ->
  let a2 := fst (AppJs.run [AppJs.EvPress; AppJs.EvPress] a w) in
  let a4 := fst (AppJs.run [AppJs.EvPress; AppJs.EvPress; AppJs.EvCountdown;
                            AppJs.EvPress] a w) in
  (limitUntil a2 = Some (Fin z) /\ showLimit a2 = true /\
   tapsRef a2 = tapsRef a /\ fact a2 = fact a /\ refills a2 = refills a) /\
  (limitUntil a4 = None /\ showLimit a4 = false /\
   tapsRef a4 = (in_window (c 3%nat) (tapsRef a) ++ [c 3%nat])%list /\
   (length (tapsRef a4) <= AppJs.MAX_PER_MINUTE)%nat /\
   refills a4 = S (refills a) /\ busy a4 = false).
Proof.
  intros c z Hb Hl Hlen Hwin Hm Hmin Hz H1 H2 H3.
  (* the first press: denied *)
  assert (AppJs.handlePress a w =
          (set_showLimit true (set_limitUntil (Some (Fin z))
             (set_tapsRef (tapsRef a) a)), snd (Date_now w))) as E1.
  { rewrite handlePress_unlimited by done. unfold bind at 1.
    assert (fst (fst (AppJs.canTap a w)) = false) as Hden.
    { rewrite canTap_decides, in_window_all.
      - rewrite Hlen. by rewrite Nat.leb_refl.
      - intros t Ht. specialize (Hwin t Ht). unfold c in Hwin.
        by rewrite Nat.add_0_r in Hwin. }
    destruct (canTap_denied a w Hden) as (m' & Hin' & Hmin' & _ & Heq).
    rewrite in_window_all in Hin', Hmin', Heq
      by (intros t Ht; specialize (Hwin t Ht); unfold c in Hwin;
          by rewrite Nat.add_0_r in Hwin).
    assert (m' = m) as -> by (specialize (Hmin m' Hin');
                              specialize (Hmin' m Hm); lia).
    rewrite Heq. by cbn. }
  set (a1 := set_showLimit true (set_limitUntil (Some (Fin z))
               (set_tapsRef (tapsRef a) a))) in *.
  set (w1 := snd (Date_now w)) in *.
  (* the second press: blocked *)
  assert (AppJs.handlePress a1 w1 = (set_showLimit true a1, snd (Date_now w1)))
    as E2.
  { apply (handlePress_blocked a1 w1 z); try done.
    unfold w1, c in *. cbn. by rewrite Nat.add_1_r in H1. }
  set (w2 := snd (Date_now w1)) in *.
  (* the countdown: expired *)
  assert (AppJs.countdown (set_showLimit true a1) w2 =
          (set_showLimit false (set_limitUntil None
             (set_remaining (Fin 0) (set_showLimit true a1))),
           snd (Date_now w2))) as E3.
  { rewrite (countdown_running _ w2 z) by done. cbv zeta.
    assert (clock w2 (reads w2) = c 2%nat) as ->
      by (unfold w2, w1, c; cbn; f_equal; lia).
    rewrite Z.max_l by lia. by cbn. }
  set (a3 := set_showLimit false (set_limitUntil None
               (set_remaining (Fin 0) (set_showLimit true a1)))) in *.
  set (w3 := snd (Date_now w2)) in *.
  assert (clock w3 (reads w3) = c 3%nat) as Hc3
    by (unfold w3, w2, w1, c; cbn; f_equal; lia).
  (* the last press: counted *)
  assert (fst (fst (AppJs.canTap a3 w3)) = true) as Hok.
  { rewrite canTap_decides, Hc3. apply negb_true_iff, Nat.leb_gt.
    change (tapsRef a3) with (tapsRef a). rewrite <- Hlen.
    apply (length_filter_lt _ _ m); [done|lia]. }
  destruct (canTap_allowed a3 w3 Hok) as (Hroom & Heq).
  rewrite Hc3 in Hroom, Heq. change (tapsRef a3) with (tapsRef a) in *.
  destruct (getNextFact_resolves AppJs.fetchWithRetry AppJs.FALLBACK
              toLowerCase
              (set_tapsRef (in_window (c 3%nat) (tapsRef a) ++ [c 3%nat])
                 (set_tapsRef (in_window (c 3%nat) (tapsRef a)) a3))
              (snd (Date_now w3))) as (t & Hres); [done|].
  assert (exists w4,
    AppJs.handlePress a3 w3 =
    (set_busy false (fire_primeCache (set_fact t
       (snd (shift (set_busy true
          (set_tapsRef (in_window (c 3%nat) (tapsRef a) ++ [c 3%nat])
             (set_tapsRef (in_window (c 3%nat) (tapsRef a)) a3))))))),
     w4)) as (w4 & E4).
  { rewrite handlePress_unlimited by done. unfold bind at 1. rewrite Heq.
    cbn [fst snd]. unfold bind, ret. unfold AppJs.getNextFact.
    destruct (getNextFact _ _ _ _ _) as [s w4]. cbn [fst] in Hres.
    subst s. by exists w4. }
  rewrite !AppJs_run_cons. cbn [AppJs.run AppJs.exec].
  rewrite E1. cbn [fst snd]. rewrite E2. cbn [fst snd]. rewrite E3.
  cbn [fst snd]. rewrite E4. unfold ret. cbn [fst snd].
  split; [by repeat split|].
  unfold shift. cbn [cacheRef set_busy set_tapsRef].
  assert (length (in_window (c 3%nat) (tapsRef a) ++ [c 3%nat]) <=
          AppJs.MAX_PER_MINUTE)%nat as Hfit
    by (rewrite length_app; simpl; lia).
  destruct (cacheRef a3); by repeat split.
Qed.

Lemma X9_witness :
  let a2 := fst (AppJs.run [AppJs.EvPress; AppJs.EvPress] five_taps ticking) in
  let a4 := fst (AppJs.run [AppJs.EvPress; AppJs.EvPress; AppJs.EvCountdown;
                            AppJs.EvPress] five_taps ticking) in
  (limitUntil a2 = Some (Fin 61000) /\ showLimit a2 = true /\
   tapsRef a2 = tapsRef five_taps /\ fact a2 = fact five_taps /\
   refills a2 = refills five_taps) /\
  (limitUntil a4 = None /\ showLimit a4 = false /\
   tapsRef a4 = [3000; 5000; 7000; 9000; 61500] /\
   (length (tapsRef a4) <= AppJs.MAX_PER_MINUTE)%nat /\
   refills a4 = 1%nat /\ busy a4 = false).
Proof.
  apply (X9_limit_wait_release five_taps ticking 1000).
  - reflexivity.
  - reflexivity.
  - reflexivity.
  - intros t Ht. simpl in Ht.
    repeat (apply elem_of_cons in Ht as [->|Ht]; [reflexivity|]).
    by apply elem_of_nil in Ht.
  - simpl. apply elem_of_cons. by left.
  - intros t Ht. simpl in Ht.
    repeat (apply elem_of_cons in Ht as [->|Ht]; [lia|]).
    by apply elem_of_nil in Ht.
  - unfold AppJs.WINDOW_MS. lia.
  - unfold AppJs.WINDOW_MS. simpl. lia.
  - unfold AppJs.WINDOW_MS. simpl. lia.
  - unfold AppJs.WINDOW_MS. simpl. lia.
Defined.

(** ** Lowercase *)

Lemma lower_ascii_idem c : lower_ascii (lower_ascii c) = lower_ascii c.
Proof.
  destruct c as [[] [] [] [] [] [] [] []]; reflexivity.
Qed.

Lemma toLowerCase_idem s : toLowerCase (toLowerCase s) = toLowerCase s.
Proof.
  induction s as [|c s IH]; [done|]. simpl. by rewrite lower_ascii_idem, IH.
Qed.

Lemma AppJs_try_text_lower r t :
  AppJs.try_text r = Some t -> toLowerCase t = t.
Proof.
  destruct r as [|[| |b|z|s|]]; try done. simpl.
  destruct (negb (String.eqb s "")); [|done].
  intros [= <-]. apply toLowerCase_idem.
Qed.

Lemma AppJs_fetchWithRetry_lower w t :
  fst (AppJs.fetchWithRetry w) = Some t -> toLowerCase t = t /\ t <> "".
Proof.
  intros H. destruct (fetchWithRetry_of_eq Current w) as (Hr & _).
  cbv zeta in Hr. cbn [fetchWithRetry_of try_text_of] in Hr.
  rewrite H in Hr. destruct (_ <? _)%nat; [|done]. symmetry in Hr. split.
  - by eapply AppJs_try_text_lower.
  - by apply (try_text_of_nonempty Current) in Hr.
Qed.

(** ** The initial load *)

(** X10: the initial load of [src/App.js] always resolves and publishes a
    non-empty lowercase text: what [fetchWithRetry] returned, or, when that
    is [null], a lowercased entry of [FALLBACK].  It clears [busy], fires
    one refill, and leaves the queue, the seen-set and the limiter's cells
    as they were. *)
Theorem X10_initialLoad_always_publishes (a : App) (w : World) :
  exists a',
    fst (AppJs.initialLoad a w) = Resolved a' /\
    fact a' <> "" /\ toLowerCase (fact a') = fact a' /\
    match fst (AppJs.fetchWithRetry w) with
    | Some t => fact a' = t
    | None => exists e, e ∈ AppJs.FALLBACK /\ fact a' = toLowerCase e
    end /\
    busy a' = false /\ refills a' = S (refills a) /\
    cacheRef a' = cacheRef a /\ seenRef a' = seenRef a /\
    tapsRef a' = tapsRef a /\ limitUntil a' = limitUntil a /\
    showLimit a' = showLimit a.
Proof.
  unfold AppJs.initialLoad, bind.
  pose proof (AppJs_fetchWithRetry_lower w) as Hlow.
  destruct (AppJs.fetchWithRetry w) as [f w1]. cbn [fst] in *.
  destruct (publish_resolves AppJs.FALLBACK toLowerCase f (set_busy true a)
              w1) as (t & Hres & _ & _ & Hsome & Hfall); [done|].
  rewrite Hres. eexists. split; [reflexivity|]. cbn.
  destruct f as [t'|].
  - destruct (Hlow t' eq_refl) as [Hl Hne].
    assert (falsy (Some t') = false) as Hf
      by (simpl; by apply String.eqb_neq).
    specialize (Hsome Hf) as [= ->]. by repeat split.
  - destruct (Hfall eq_refl) as (e & He & ->).
    split; [|split; [apply toLowerCase_idem|]].
    + apply toLowerCase_nonempty. intros ->. simpl in He.
      repeat (apply elem_of_cons in He as [He|He]; [discriminate|]).
      by apply elem_of_nil in He.
    + split; [by exists e|]. by repeat split.
Qed.

(** ** Every published fact is lowercase *)

(** Where the fact that [getNextFact] publishes comes from. *)
Lemma getNextFact_provenance fw fb fc a w :
  fb <> [] ->
  exists t,
    fst (getNextFact fw fb fc a w) =
      Resolved (set_busy false (fire_primeCache
        (set_fact t (snd (shift (set_busy true a)))))) /\
    ((exists rest, cacheRef a = t :: rest) \/
     fst (fw w) = Some t \/
     exists e, e ∈ fb /\ t = fc e).
Proof.
  intros Hfb. unfold getNextFact, shift. cbn [cacheRef set_busy].
  destruct (cacheRef a) as [|h rest] eqn:Hc; unfold bind at 1.
  - cbn [falsy]. destruct (fw w) as [f1 w1] eqn:Ef. cbn [fst].
    destruct (publish_resolves fb fc f1 (set_busy true a) w1 Hfb)
      as (t & Hres & _ & _ & Hsome & Hfall).
    exists t. split; [done|]. destruct (falsy f1) eqn:E1.
    + right. right. by apply Hfall.
    + right. left. by rewrite (Hsome eq_refl).
  - destruct (falsy (Some h)) eqn:Eh.
    + destruct (fw w) as [f1 w1] eqn:Ef. cbn [fst].
      destruct (publish_resolves fb fc f1
                  (set_cacheRef rest (set_busy true a)) w1 Hfb)
        as (t & Hres & _ & _ & Hsome & Hfall).
      exists t. split; [done|]. destruct (falsy f1) eqn:E1.
      * right. right. by apply Hfall.
      * right. left. by rewrite (Hsome eq_refl).
    + unfold ret at 1.
      destruct (publish_resolves fb fc (Some h)
                  (set_cacheRef rest (set_busy true a)) w Hfb)
        as (t & Hres & _ & _ & Hsome & _).
      exists t. split; [done|]. left. exists rest.
      specialize (Hsome Eh) as [= ->]. done.
Qed.

Lemma lower_ok_same a a' :
  fact a' = fact a -> cacheRef a' = cacheRef a -> lower_ok a -> lower_ok a'.
Proof. unfold lower_ok. intros -> ->. done. Qed.

Lemma offer_lower t a :
  toLowerCase t = t -> lower_ok a -> lower_ok (offer t a).
Proof.
  intros Ht [Hf Hc]. unfold offer. destruct (decide _); [done|].
  split; [done|]. simpl. intros f Hin.
  apply elem_of_app in Hin as [Hin|Hin]; [by apply Hc|].
  by apply list_elem_of_singleton in Hin as ->.
Qed.

Lemma AppJs_primeCache_lower fuel a w :
  lower_ok a -> lower_ok (snd (fst (AppJs.primeCache fuel a w))).
Proof.
  unfold AppJs.primeCache. revert a w.
  induction fuel as [|fuel IH]; intros a w Hok; simpl.
  - by destruct (length (cacheRef a) <? 4)%nat.
  - destruct (length (cacheRef a) <? 4)%nat; simpl; [|done].
    unfold bind. pose proof (AppJs_fetchWithRetry_lower w) as Hlow.
    destruct (AppJs.fetchWithRetry w) as [f w1]. cbn [fst] in Hlow.
    unfold primeCache_resume. destruct f as [t|]; [|done].
    destruct (falsy (Some t)); [done|].
    apply IH. apply offer_lower; [|done]. by destruct (Hlow t eq_refl).
Qed.

Lemma AppJs_getNextFact_lower a w :
  lower_ok a -> lower_ok (cells (fst (AppJs.getNextFact a w))).
Proof.
  intros [Hf Hc]. unfold AppJs.getNextFact.
  destruct (getNextFact_provenance AppJs.fetchWithRetry AppJs.FALLBACK
              toLowerCase a w) as (t & -> & Hsrc); [done|].
  cbn [cells]. split.
  - cbn. destruct Hsrc as [(rest & Hr)|[Hfetch|(e & _ & ->)]].
    + apply Hc. rewrite Hr. apply elem_of_cons. by left.
    + by destruct (AppJs_fetchWithRetry_lower w t Hfetch).
    + apply toLowerCase_idem.
  - unfold shift. cbn [cacheRef set_busy].
    destruct (cacheRef a) as [|h rest] eqn:E; cbn; [by rewrite E|].
    intros f Hin. apply Hc. apply elem_of_cons. by right.
Qed.

Lemma handlePress_cases a w :
  fst (AppJs.handlePress a w) = a \/
  fst (AppJs.handlePress a w) = set_showLimit true a \/
  (exists w1, fst (AppJs.handlePress a w) = snd (fst (AppJs.canTap a w1))) \/
  (exists w1 w2,
     fst (AppJs.handlePress a w) =
     cells (fst (AppJs.getNextFact (snd (fst (AppJs.canTap a w1))) w2))).
Proof.
  assert (forall r, r = fst (AppJs.handlePress a w) ->
    r = a \/ r = set_showLimit true a \/
    (exists w1, r = snd (fst (AppJs.canTap a w1))) \/
    (exists w1 w2,
       r = cells (fst (AppJs.getNextFact (snd (fst (AppJs.canTap a w1)))
                         w2)))) as H; [|by apply H].
  intros r Hr. unfold AppJs.handlePress in Hr.
  destruct (busy a); [by left|]. unfold bind at 1 in Hr.
  destruct (AppJs.still_limited a w) as [blocked w1].
  destruct blocked; [right; by left|]. unfold bind at 1 in Hr.
  destruct (AppJs.canTap a w1) as [[ok a1] w2] eqn:Ec. cbn [fst snd] in Hr.
  destruct ok.
  - right. right. right. exists w1, w2. rewrite Ec. cbn [fst snd].
    unfold bind, ret in Hr.
    by destruct (AppJs.getNextFact a1 w2) as [s w3].
  - right. right. left. exists w1. by rewrite Ec.
Qed.

Lemma canTap_fact_cache a w :
  fact (snd (fst (AppJs.canTap a w))) = fact a /\
  cacheRef (snd (fst (AppJs.canTap a w))) = cacheRef a.
Proof.
  unfold AppJs.canTap, bind, Date_now. cbn [tapsRef set_tapsRef].
  by destruct (_ <=? _)%nat.
Qed.

Lemma AppJs_exec_lower e a w :
  (forall f, e = AppJs.EvResume (Some f) -> toLowerCase f = f) ->
  lower_ok a -> lower_ok (fst (AppJs.exec e a w)).
Proof.
  intros He Hok. destruct e as [| |fuel|f| |]; cbn [AppJs.exec].
  - rewrite bind_ret_fst. unfold AppJs.initialLoad, bind.
    pose proof (AppJs_fetchWithRetry_lower w) as Hlow.
    destruct (AppJs.fetchWithRetry w) as [f w1]. cbn [fst] in Hlow.
    destruct (publish_resolves AppJs.FALLBACK toLowerCase f
                (set_busy true a) w1) as (t & -> & _ & _ & Hsome & Hfall);
      [done|].
    cbn [cells]. destruct Hok as [_ Hc]. split; [cbn|by cbn].
    destruct (falsy f) eqn:Ef.
    + destruct (Hfall eq_refl) as (e & _ & ->). apply toLowerCase_idem.
    + specialize (Hsome eq_refl) as ->. by destruct (Hlow t eq_refl).
  - destruct (handlePress_cases a w) as [->|[->|[(w1 & ->)|(w1 & w2 & ->)]]].
    + done.
    + by apply (lower_ok_same a).
    + destruct (canTap_fact_cache a w1). by apply (lower_ok_same a).
    + apply AppJs_getNextFact_lower.
      destruct (canTap_fact_cache a w1). by apply (lower_ok_same a).
  - rewrite bind_ret_fst. by apply AppJs_primeCache_lower.
  - unfold primeCache_resume. destruct f as [t|]; [|done].
    destruct (falsy (Some t)); [done|]. cbn [default].
    apply offer_lower; [by apply He|done].
  - destruct (countdown_cells a w) as ([Hc _] & _).
    apply (lower_ok_same a); [|done|done].
    unfold AppJs.countdown. destruct (limitUntil a) as [l|]; [|done].
    destruct (AppJs.num_truthy l); [|done].
    unfold bind, Date_now, ret. destruct l as [z|]; [|done].
    by destruct (_ <=? 0)%Z.
  - by apply (lower_ok_same a).
Qed.

(** X11: in [src/App.js] everything shown is lowercase.  Over any session
    from the mounted state (with every resumed refill handing over a
    lowercase text, as [fetchWithRetry] always returns) the fact on display
    and every queued text are fixed by [toLowerCase]. *)
Theorem X11_current_version_shows_lowercase
    (es : list AppJs.event) (w : World) :
  (forall f, AppJs.EvResume (Some f) ∈ es -> toLowerCase f = f) ->
  let a := fst (AppJs.run es AppJs.init w) in
  toLowerCase (fact a) = fact a /\
  forall f, f ∈ cacheRef a -> toLowerCase f = f.
Proof.
  intros Hes. cbv zeta.
  assert (lower_ok AppJs.init) as Hinit.
  { split; [reflexivity|]. intros f Hf. by apply elem_of_nil in Hf. }
  revert Hinit. generalize AppJs.init as a. revert w.
  induction es as [|e es IH]; intros w a Hok; [done|].
  rewrite AppJs_run_cons. apply IH.
  - intros f Hf. apply Hes. apply elem_of_cons. by right.
  - apply AppJs_exec_lower; [|done]. intros f ->. apply Hes.
    apply elem_of_cons. by left.
Qed.

Lemma X11_witness :
  let a := fst (AppJs.run [AppJs.EvInitialLoad; AppJs.EvRefill 2;
                           AppJs.EvResume (Some "octopuses have three hearts.");
                           AppJs.EvPress] AppJs.init honey) in
  toLowerCase (fact a) = fact a /\
  forall f, f ∈ cacheRef a -> toLowerCase f = f.
Proof.
  apply (X11_current_version_shows_lowercase
           [AppJs.EvInitialLoad; AppJs.EvRefill 2;
            AppJs.EvResume (Some "octopuses have three hearts.");
            AppJs.EvPress] honey).
  intros f Hf.
  apply elem_of_cons in Hf as [Hf|Hf]; [discriminate|].
  apply elem_of_cons in Hf as [Hf|Hf]; [discriminate|].
  apply elem_of_cons in Hf as [Hf|Hf]; [by injection Hf as ->|].
  apply elem_of_cons in Hf as [Hf|Hf]; [discriminate|].
  by apply elem_of_nil in Hf.
Defined.

(** ** Requests per action *)

Lemma fetchWithRetry_of_budget v w :
  (fetches w < fetches (snd (fetchWithRetry_of v w)) <=
     fetches w + attempts_of v)%nat.
Proof.
  destruct (fetchWithRetry_of_eq v w) as (_ & Hf & _). cbv zeta in Hf.
  rewrite Hf.
  pose proof (leading_failures_le (try_text_of v) (net w) (fetches w)
                (match v with First => 4 | _ => 3 end)%nat) as Hle.
  destruct (_ <? _)%nat eqn:E; [apply Nat.ltb_lt in E|];
    destruct v; unfold attempts_of; lia.
Qed.

Lemma publish_fetches fb fc f a w :
  fetches (snd (publish fb fc f a w)) = fetches w.
Proof.
  by destruct (publish_limiter_blind fb fc f a w [] None (Fin 0) false)
    as (_ & _ & ?).
Qed.

Lemma getNextFact_of_budget v a w :
  (fetches w <= fetches (snd (getNextFact_of v a w)) <=
     fetches w + attempts_of v)%nat.
Proof.
  unfold getNextFact_of, getNextFact.
  destruct (shift (set_busy true a)) as [f0 a0]. unfold bind.
  pose proof (fetchWithRetry_of_budget v w) as Hb.
  destruct (falsy f0).
  - destruct (fetchWithRetry_of v w) as [f1 w1]. cbn [snd] in Hb.
    rewrite publish_fetches. lia.
  - unfold ret. rewrite publish_fetches. lia.
Qed.

Lemma primeCache_of_budget v fuel a w :
  (fetches w <= fetches (snd (primeCache_of v fuel a w)) <=
     fetches w + fuel * attempts_of v)%nat.
Proof.
  revert a w. induction fuel as [|fuel IH]; intros a w.
  - unfold primeCache_of. cbn [primeCache_loop].
    destruct (negb _); cbn; lia.
  - destruct (Nat.lt_ge_cases (length (cacheRef a)) (target_of v))
      as [Hlt|Hge].
    + rewrite primeCache_of_S by done.
      pose proof (fetchWithRetry_of_budget v w) as Hb.
      destruct (primeCache_resume _ a) as [a1|].
      * specialize (IH a1 (snd (fetchWithRetry_of v w))). lia.
      * cbn [snd]. lia.
    + rewrite primeCache_of_full by done. cbn. lia.
Qed.

(** X12: how many requests one action can issue.  A call of
    [fetchWithRetry] issues at least 1 and at most 3 requests (4 in the
    first version); [getNextFact] at most as many; a refill run of [fuel]
    rounds at most [fuel] times as many; the initial load of [src/App.js]
    between 1 and 3; and a press at most 3, whatever the state. *)
Theorem X12_requests_per_action :
  (forall v w,
      attempts_of v = (match v with First => S Part000.MAX_RETRIES
                                  | _ => 3 end)%nat /\
      (fetches w < fetches (snd (fetchWithRetry_of v w)) <=
         fetches w + attempts_of v)%nat) /\
  (forall v a w,
      (fetches w <= fetches (snd (getNextFact_of v a w)) <=
         fetches w + attempts_of v)%nat) /\
  (forall v fuel a w,
      (fetches w <= fetches (snd (primeCache_of v fuel a w)) <=
         fetches w + fuel * attempts_of v)%nat) /\
  (forall a w,
      (fetches w < fetches (snd (AppJs.initialLoad a w)) <=
         fetches w + 3)%nat) /\
  (forall a w,
      (fetches w <= fetches (snd (AppJs.handlePress a w)) <=
         fetches w + 3)%nat).
Proof.
  split; [|split; [|split; [|split]]].
  - intros v w. split; [by destruct v|apply fetchWithRetry_of_budget].
  - apply getNextFact_of_budget.
  - apply primeCache_of_budget.
  - intros a w. unfold AppJs.initialLoad, bind.
    pose proof (fetchWithRetry_of_budget Current w) as Hb.
    cbn [fetchWithRetry_of attempts_of] in Hb.
    destruct (AppJs.fetchWithRetry w) as [f w1]. cbn [snd] in Hb.
    by rewrite publish_fetches.
  - intros a w.
    assert (forall r, r = snd (AppJs.handlePress a w) ->
              (fetches w <= fetches r <= fetches w + 3)%nat) as H;
      [|by apply H].
    intros r Hr. unfold AppJs.handlePress in Hr.
    destruct (busy a); [subst r; cbn; lia|]. unfold bind at 1 in Hr.
    pose proof (still_limited_quiet a w) as (Hq & _).
    destruct (AppJs.still_limited a w) as [blocked w1]. cbn [snd] in Hq.
    destruct blocked; [subst r; cbn; lia|]. unfold bind at 1 in Hr.
    assert (fetches (snd (AppJs.canTap a w1)) = fetches w1) as Hc.
    { unfold AppJs.canTap, bind, Date_now. cbn [tapsRef set_tapsRef].
      by destruct (_ <=? _)%nat. }
    destruct (AppJs.canTap a w1) as [[ok a1] w2]. cbn [fst snd] in *.
    destruct ok; [|subst r; cbn; lia]. unfold bind, ret in Hr.
    pose proof (getNextFact_of_budget Current a1 w2) as Hb.
    change (getNextFact_of Current) with AppJs.getNextFact in Hb.
    cbn [attempts_of] in Hb.
    destruct (AppJs.getNextFact a1 w2) as [s w3]. cbn [snd] in *.
    subst r. lia.
Qed.

(** ** The queue under one refill run *)



(** ** A refill against a backend that serves fresh facts *)

Lemma fetchWithRetry_of_first_try v w t :
  try_text_of v (net w (fetches w)) = Some t ->
  fetchWithRetry_of v w = (Some t, snd (fetchJson_toText w)).
Proof.
  intros H. destruct v; cbn [fetchWithRetry_of try_text_of] in *.
  - unfold Part000.fetchWithRetry, Part000.fetchWithRetry_tuned.
    cbn [Part000.retry_loop Part000.MAX_RETRIES Nat.leb negb].
    unfold bind, fetchJson_toText. cbn [fst snd]. by rewrite H.
  - unfold Part001.fetchWithRetry, AppJs.fetchWithRetry.
    cbn [AppJs.retry_loop Nat.ltb Nat.leb negb].
    unfold bind, fetchJson_toText. cbn [fst snd]. by rewrite H.
  - unfold AppJs.fetchWithRetry.
    cbn [AppJs.retry_loop Nat.ltb Nat.leb negb].
    unfold bind, fetchJson_toText. cbn [fst snd]. by rewrite H.
Qed.

Lemma refill_fresh v need :
  forall fuel a w (txt : nat -> string),
    (length (cacheRef a) + need = 4)%nat ->
    (need <= fuel)%nat ->
    (forall i, (i < need)%nat ->
               try_text_of v (net w (fetches w + i)%nat) = Some (txt i)) ->
    (forall i, (i < need)%nat -> txt i ∉ seenRef a) ->
    (forall i j, (i < j < need)%nat -> txt i <> txt j) ->
    let r := primeCache_of v fuel a w in
    fst (fst r) = Finished /\
    cacheRef (snd (fst r)) = (cacheRef a ++ map txt (seq 0 need))%list /\
    (forall x, x ∈ seenRef (snd (fst r)) <->
               x ∈ map txt (seq 0 need) \/ x ∈ seenRef a) /\
    fetches (snd r) = (fetches w + need)%nat /\
    slept (snd r) = slept w.
Proof.
  assert (target_of v = 4%nat) as Ht by (by destruct v).
  induction need as [|n IH]; intros fuel a w txt Hlen Hfuel Hnet Hnew Hdist.
  - cbv zeta. rewrite primeCache_of_full by (rewrite Ht; lia). cbn.
    rewrite app_nil_r, Nat.add_0_r. repeat split; try done.
    + intros Hx. by right.
    + intros [Hx|Hx]; [by apply elem_of_nil in Hx|done].
  - destruct fuel as [|fuel]; [lia|]. cbv zeta.
    rewrite primeCache_of_S by (rewrite Ht; lia).
    pose proof (Hnet 0%nat ltac:(lia)) as H0. rewrite Nat.add_0_r in H0.
    rewrite (fetchWithRetry_of_first_try v w (txt 0%nat) H0). cbn [fst snd].
    pose proof (try_text_of_nonempty v _ _ H0) as Hne.
    unfold primeCache_resume.
    assert (falsy (Some (txt 0%nat)) = false) as ->
      by (simpl; by apply String.eqb_neq).
    unfold offer. rewrite decide_False by (apply Hnew; lia).
    set (a1 := set_seenRef _ _). set (w1 := snd (fetchJson_toText w)).
    destruct (IH fuel a1 w1 (fun i => txt (S i)))
      as (Hfin & Hcache & Hseen & Hfetch & Hslept).
    + unfold a1. cbn. rewrite length_app. simpl. lia.
    + lia.
    + intros i Hi. unfold w1. cbn.
      replace (S (fetches w + i)) with (fetches w + S i)%nat by lia.
      apply Hnet. lia.
    + intros i Hi. unfold a1. cbn. intros Hin.
      apply elem_of_union in Hin as [Hin|Hin].
      * apply elem_of_singleton in Hin. symmetry in Hin. revert Hin.
        apply Hdist. lia.
      * revert Hin. apply Hnew. lia.
    + intros i j Hij. apply Hdist. lia.
    + cbv zeta in Hfin, Hcache, Hseen, Hfetch, Hslept.
      assert (map txt (seq 0 (S n)) =
              txt 0%nat :: map (fun i => txt (S i)) (seq 0 n)) as Hmap.
      { simpl. f_equal. by rewrite <- seq_shift, map_map. }
      rewrite Hmap. split; [done|]. split.
      { rewrite Hcache. unfold a1. cbn. by rewrite <- app_assoc. }
      split.
      { intros x. rewrite Hseen. unfold a1. cbn.
        rewrite elem_of_union, elem_of_singleton, elem_of_cons. tauto. }
      split; [rewrite Hfetch; unfold w1; cbn; lia|].
      rewrite Hslept. by unfold w1.
Qed.

(** X14: a refill against a backend that serves fresh facts.  When the
    queue is [need] short of 4 and each of the next [need] requests is
    answered at once with a text that is not in the seen-set and differs
    from the others, a run with enough rounds ends [Finished] after exactly
    [need] requests and no wait, having appended those texts in the order
    received and added them to the seen-set. *)
Theorem X14_refill_from_a_fresh_backend
    (v : version) (fuel : nat) (a : App) (w : World) (txt : nat -> string) :
  let need := (4 - length (cacheRef a))%nat in
  (need <= fuel)%nat ->
  (forall i, (i < need)%nat ->
             try_text_of v (net w (fetches w + i)%nat) = Some (txt i)) ->
  (forall i, (i < need)%nat -> txt i ∉ seenRef a) ->
  (forall i j, (i < j < need)%nat -> txt i <> txt j) ->
  let r := primeCache_of v fuel a w in
  fst (fst r) = Finished /\
  cacheRef (snd (fst r)) = (cacheRef a ++ map txt (seq 0 need))%list /\
  (forall x, x ∈ seenRef (snd (fst r)) <->
             x ∈ map txt (seq 0 need) \/ x ∈ seenRef a) /\
  fetches (snd r) = (fetches w + need)%nat /\
  slept (snd r) = slept w.
Proof.
  intros need Hfuel Hnet Hnew Hdist.
  destruct (Nat.le_gt_cases (length (cacheRef a)) 4) as [Hle|Hgt].
  - apply refill_fresh; try done. unfold need. lia.
  - assert (need = 0%nat) as -> by (unfold need; lia). cbv zeta.
    assert (target_of v = 4%nat) as Ht by (by destruct v).
    rewrite primeCache_of_full by (rewrite Ht; lia). cbn.
    rewrite app_nil_r, Nat.add_0_r. repeat split; try done.
    + intros Hx. by right.
    + intros [Hx|Hx]; [by apply elem_of_nil in Hx|done].
Qed.

Lemma X14_witness :
  let r := primeCache_of Current 6 two_cached alphabet in
  fst (fst r) = Finished /\
  cacheRef (snd (fst r)) = ["fact-a"; "fact-b"; "a"; "b"] /\
  (forall x, x ∈ seenRef (snd (fst r)) <->
             x ∈ ["a"; "b"] \/ x ∈ seenRef two_cached) /\
  fetches (snd r) = 2%nat /\
  slept (snd r) = [].
Proof.
  apply (X14_refill_from_a_fresh_backend Current 6 two_cached alphabet
           (fun n => String (ascii_of_nat (97 + n)) "")).
  - simpl. lia.
  - intros i Hi. simpl in Hi.
    destruct i as [|[|i]]; [reflexivity|reflexivity|lia].
  - intros i Hi. simpl in Hi.
    destruct i as [|[|i]]; [| |lia]; simpl; intros Hin;
      apply elem_of_union in Hin as [Hin|Hin];
      apply elem_of_singleton in Hin; discriminate.
  - intros i j Hij. simpl in Hij.
    destruct i as [|[|i]]; destruct j as [|[|j]]; try lia; discriminate.
Defined.

(** ** No text is queued twice in a session *)

Lemma no_reentry_refl a : no_reentry a a.
Proof. by split. Qed.

Lemma no_reentry_trans a b c :
  no_reentry a b -> no_reentry b c -> no_reentry a c.
Proof.
  intros [Hs1 Hc1] [Hs2 Hc2]. split; [set_solver|].
  intros t Ht Hin. apply Hc1; [done|]. apply Hc2; [|done]. by apply Hs1.
Qed.

Lemma no_reentry_same a a' : same_cache a a' -> no_reentry a a'.
Proof. intros [Hc Hs]. unfold no_reentry. by rewrite Hc, Hs. Qed.

Lemma offer_no_reentry f a : no_reentry a (offer f a).
Proof.
  unfold offer. destruct (decide (f ∈ seenRef a)) as [|Hnew];
    [apply no_reentry_refl|].
  split; [simpl; set_solver|]. simpl. intros t Ht Hin.
  apply elem_of_app in Hin as [Hin|Hin]; [done|].
  apply list_elem_of_singleton in Hin as ->. done.
Qed.

Lemma primeCache_resume_no_reentry f a :
  no_reentry a (default a (primeCache_resume f a)).
Proof.
  unfold primeCache_resume. destruct f as [t|]; [|apply no_reentry_refl].
  destruct (falsy (Some t)); [apply no_reentry_refl|].
  apply offer_no_reentry.
Qed.

Lemma primeCache_loop_no_reentry fw tg fuel a w :
  no_reentry a (snd (fst (primeCache_loop fw tg fuel a w))).
Proof.
  revert a w. induction fuel as [|fuel IH]; intros a w; simpl.
  - destruct (length (cacheRef a) <? tg)%nat; apply no_reentry_refl.
  - destruct (length (cacheRef a) <? tg)%nat; simpl;
      [|apply no_reentry_refl].
    unfold bind. destruct (fw w) as [f w1].
    unfold primeCache_resume. destruct f as [t|]; [|apply no_reentry_refl].
    destruct (falsy (Some t)); [apply no_reentry_refl|].
    eapply no_reentry_trans; [apply offer_no_reentry|apply IH].
Qed.

Lemma getNextFact_no_reentry fw fb fc a w :
  no_reentry a (cells (fst (getNextFact fw fb fc a w))).
Proof.
  destruct (getNextFact_cells fw fb fc a w) as (Hs & Hc & _).
  cbv zeta in Hs, Hc. unfold no_reentry. rewrite Hs, Hc.
  split; [done|]. intros t _ Hin.
  destruct (cacheRef a) as [|h rest]; [done|].
  apply elem_of_cons. by right.
Qed.

Lemma handlePress_no_reentry a w :
  no_reentry a (fst (AppJs.handlePress a w)).
Proof.
  destruct (handlePress_cases a w) as [->|[->|[(w1 & ->)|(w1 & w2 & ->)]]].
  - apply no_reentry_refl.
  - by apply no_reentry_same.
  - apply no_reentry_same, canTap_same_cache.
  - eapply no_reentry_trans;
      [apply no_reentry_same, canTap_same_cache|].
    apply getNextFact_no_reentry.
Qed.

Lemma AppJs_exec_no_reentry e a w : no_reentry a (fst (AppJs.exec e a w)).
Proof.
  destruct e as [| |fuel|f| |]; cbn [AppJs.exec].
  - rewrite bind_ret_fst. apply no_reentry_same.
    by destruct (initialLoad_cells a w) as (? & _).
  - apply handlePress_no_reentry.
  - rewrite bind_ret_fst. apply primeCache_loop_no_reentry.
  - apply primeCache_resume_no_reentry.
  - apply no_reentry_same. by destruct (countdown_cells a w) as (? & _).
  - by apply no_reentry_same.
Qed.

Lemma turn_exec_no_reentry v t a w : no_reentry a (fst (turn_exec v t a w)).
Proof.
  destruct t as [|fuel|f]; cbn [turn_exec].
  - rewrite bind_ret_fst. apply getNextFact_no_reentry.
  - rewrite bind_ret_fst. apply primeCache_loop_no_reentry.
  - apply primeCache_resume_no_reentry.
Qed.

(** X15: no text is queued twice in a session.  Over any sequence of turns
    from any state, in every version, a text of the seen-set that is not
    in the queue never enters it: once a queued fact has been shown (and so
    has left the queue) no refill can queue it again. *)
Theorem X15_seen_text_never_requeued :
  (forall es a w t,
      t ∈ seenRef a -> t ∉ cacheRef a ->
      t ∈ seenRef (fst (AppJs.run es a w)) /\
      t ∉ cacheRef (fst (AppJs.run es a w))) /\
  (forall v ts a w t,
      t ∈ seenRef a -> t ∉ cacheRef a ->
      t ∈ seenRef (fst (turns v ts a w)) /\
      t ∉ cacheRef (fst (turns v ts a w))).
Proof.
  split.
  - assert (forall es a w, no_reentry a (fst (AppJs.run es a w))) as H.
    { induction es as [|e es IH]; intros a w; [apply no_reentry_refl|].
      rewrite AppJs_run_cons.
      eapply no_reentry_trans; [apply AppJs_exec_no_reentry|apply IH]. }
    intros es a w t Hs Hc. destruct (H es a w) as [H1 H2].
    split; [by apply H1|]. intros Hin. apply Hc. by apply H2.
  - assert (forall v ts a w, no_reentry a (fst (turns v ts a w))) as H.
    { intros v. induction ts as [|t ts IH]; intros a w;
        [apply no_reentry_refl|].
      cbn [turns]. unfold bind.
      pose proof (turn_exec_no_reentry v t a w) as Hstep.
      destruct (turn_exec v t a w) as [a1 w1].
      eapply no_reentry_trans; [exact Hstep|apply IH]. }
    intros v ts a w t Hs Hc. destruct (H v ts a w) as [H1 H2].
    split; [by apply H1|]. intros Hin. apply Hc. by apply H2.
Qed.

(** ** The limiter's numbers stay finite *)

Lemma finite_ok_same a a' : same_limiter a a' -> finite_ok a -> finite_ok a'.
Proof.
  intros (_ & Hl & Hr & _). unfold finite_ok. by rewrite Hl, Hr.
Qed.

Lemma canTap_finite a w :
  finite_ok a -> finite_ok (snd (fst (AppJs.canTap a w))).
Proof.
  intros [Hl Hr].
  destruct (fst (fst (AppJs.canTap a w))) eqn:E.
  - destruct (canTap_allowed a w E) as (_ & ->). by split.
  - destruct (canTap_denied a w E) as (m & _ & _ & _ & ->).
    split; [right; by eexists|done].
Qed.

Lemma countdown_finite a w :
  finite_ok a -> finite_ok (fst (AppJs.countdown a w)).
Proof.
  intros [Hl Hr]. unfold AppJs.countdown.
  destruct Hl as [Hl|(z & Hl)]; rewrite Hl.
  - split; [left; exact Hl|]. exists 0. by split.
  - cbn [AppJs.num_truthy]. destruct (negb (z =? 0)%Z).
    + unfold bind, Date_now, ret.
      set (m := Z.max 0 (z - clock w (reads w))).
      assert (0 <= - (- m / 1000)) as Hs.
      { pose proof (Z.div_mod (- m) 1000 ltac:(lia)).
        pose proof (Z.mod_pos_bound (- m) 1000 ltac:(lia)). lia. }
      destruct (m <=? 0)%Z; cbn [fst].
      * split; [by left|]. by eexists.
      * split; [right; exists z; exact Hl|]. by eexists.
    + split; [right; exists z; exact Hl|]. exists 0. by split.
Qed.

Lemma AppJs_exec_finite e a w :
  finite_ok a -> finite_ok (fst (AppJs.exec e a w)).
Proof.
  intros Hok. destruct e as [| |fuel|f| |]; cbn [AppJs.exec].
  - rewrite bind_ret_fst. apply (finite_ok_same a); [|done].
    by destruct (initialLoad_cells a w) as (_ & ? & _).
  - destruct (handlePress_cases a w) as [->|[->|[(w1 & ->)|(w1 & w2 & ->)]]].
    + done.
    + by destruct Hok.
    + by apply canTap_finite.
    + eapply finite_ok_same; [|by apply (canTap_finite a w1)].
      by destruct (getNextFact_cells AppJs.fetchWithRetry AppJs.FALLBACK
                     toLowerCase (snd (fst (AppJs.canTap a w1))) w2)
        as (_ & _ & ? & _).
  - rewrite bind_ret_fst. apply (finite_ok_same a); [|done].
    by destruct (primeCache_loop_step AppJs.fetchWithRetry 4 fuel a w)
      as (_ & _ & ?).
  - apply (finite_ok_same a); [|done].
    by destruct (primeCache_resume_default_step f a) as (_ & _ & ?).
  - by apply countdown_finite.
  - by destruct Hok.
Qed.

(** X16: the limiter's numbers stay finite.  Over any session of
    [src/App.js] from the mounted state [limitUntil] is [null] or an
    integer (never the [Infinity] that [Math.min] returns for no argument:
    a denial always has at least five timestamps to take the minimum of),
    and [remaining] is a non-negative integer, so the popup's
    [Math.max(0, remaining)] shows [remaining] itself. *)
Theorem X16_limiter_numbers_stay_finite (es : list AppJs.event) (w : World) :
  let a := fst (AppJs.run es AppJs.init w) in
  (limitUntil a = None \/ exists z, limitUntil a = Some (Fin z)) /\
  exists s, remaining a = Fin s /\ 0 <= s /\ Z.max 0 s = s.
Proof.
  cbv zeta.
  assert (finite_ok AppJs.init) as Hinit.
  { split; [by left|]. exists 0. by split. }
  assert (finite_ok (fst (AppJs.run es AppJs.init w))) as [Hl (s & Hs & H0)].
  { revert Hinit. generalize AppJs.init as a. revert w.
    induction es as [|e es IH]; intros w a Hok; [done|].
    rewrite AppJs_run_cons. apply IH. by apply AppJs_exec_finite. }
  split; [done|]. exists s. split; [done|]. split; [done|lia].
Qed.

Lemma X15_witness :
  let w := world_of (fun _ => Body (VStr "fact-a")) in
  let a' := fst (AppJs.run [AppJs.EvRefill 3; AppJs.EvPress; AppJs.EvRefill 3]
                   fact_a_shown w) in
  "fact-a" ∈ seenRef a' /\ "fact-a" ∉ cacheRef a'.
Proof.
  intros w. destruct X15_seen_text_never_requeued as [H _].
  apply (H [AppJs.EvRefill 3; AppJs.EvPress; AppJs.EvRefill 3]
           fact_a_shown w "fact-a").
  - simpl. apply elem_of_union. left. by apply elem_of_singleton.
  - simpl. intros Hin. apply list_elem_of_singleton in Hin. discriminate.
Defined.
